(** * synctv: the room's account handle (room/user.go)

    A shallow embedding of [room/user.go]: the account record with its
    version counter and password, and the playlist operations an
    account handle performs on its room (new movie, look up, list,
    edit).  Pointers of the Go program are locations into explicit
    stores, and every operation that writes through a pointer returns
    the store it leaves behind. *)

From stdpp Require Import base gmap strings list pretty.
From Stdlib Require Import ZArith Lia Sorted.

Local Open Scope Z_scope.

(** ** Machine integers *)

(** [uint64] arithmetic wraps around modulo [2^64]. *)
Definition uint64_modulus : Z := 2 ^ 64.

Definition wrap64 (z : Z) : Z := z mod uint64_modulus.

Definition uint64_max : Z := uint64_modulus - 1.

(** ** Errors *)

(** The four sentinel errors declared in [user.go], the error built in
    [EditMovie], and the errors handed back by collaborators
    ([bcrypt], the movie set, the movie constructor). *)
Inductive error : Type :=
  | ErrUsernameEmpty
  | ErrUsernameTooLong
  | ErrUserPasswordEmpty
  | ErrUserPasswordTooLong
  | ErrNotCreator
  | ErrBcrypt (msg : string)
  | ErrMovieNotFound
  | ErrInvalidMovie (msg : string).

(** ** Accounts *)

(** Addresses: the values of Go pointers to [User]. *)
Definition loc : Type := positive.

(** [type User struct].  The back reference [room] is not stored: a
    state of the model holds one room, and every handle is a handle of
    that room. *)
Record User : Type := mkUser {
  name : string;
  password : string;
  version : Z;
  admin : bool;
  lastAct : Z
}.

Definition set_version (u : User) (v : Z) : User :=
  mkUser (name u) (password u) v (admin u) (lastAct u).

Definition set_admin (u : User) (b : bool) : User :=
  mkUser (name u) (password u) (version u) b (lastAct u).

Definition set_password (u : User) (h : string) : User :=
  mkUser (name u) h (version u) (admin u) (lastAct u).

(** [type UserConf]: a function that updates the account it is given. *)
Definition UserConf : Type := User -> User.

Definition WithUserVersion (version : Z) : UserConf :=
  fun u => set_version u version.

Definition WithUserAdmin (admin : bool) : UserConf :=
  fun u => set_admin u admin.

(** [for _, c := range conf { c(u) }] *)
Definition apply_conf (conf : list UserConf) (u : User) : User :=
  fold_left (fun acc c => c acc) conf u.

Definition Version (u : User) : Z := version u.

Definition CheckVersion (u : User) (v : Z) : bool := Version u =? v.

Definition SetVersion (u : User) (v : Z) : User := set_version u v.

(** [atomic.AddUint64(&u.version, 1)]: the account after the increment
    and the new value. *)
Definition updateVersion (u : User) : User * Z :=
  let v := wrap64 (version u + 1) in (set_version u v, v).

Definition IsAdmin (u : User) : bool := admin u.

Definition SetAdmin (u : User) (b : bool) : User := set_admin u b.

(** [bcrypt.DefaultCost] *)
Definition DefaultCost : Z := 10.

(** The operations of an account that read or write its version. *)
Inductive AccountOp : Type :=
  | OpSetPassword (pw : string)
  | OpBumpVersion
  | OpSetVersion (v : Z)
  | OpCheckVersion (v : Z)
  | OpVersion.

Section Accounts.

(** [bcrypt.GenerateFromPassword]: the hash, or the message of the error
    the library returns. *)
Variable GenerateFromPassword : string -> Z -> string + string.

(** [NewUser].  [now] is [time.Now().UnixMicro()] and [rnd] the value
    drawn from the freshly seeded generator. *)
Definition NewUser (id pw : string) (conf : list UserConf) (now rnd : Z)
  : User + error :=
  if String.eqb id "" then inr ErrUsernameEmpty
  else if (32 <? String.length id)%nat then inr ErrUsernameTooLong
  else if String.eqb pw "" then inr ErrUserPasswordEmpty
  else if (32 <? String.length pw)%nat then inr ErrUserPasswordTooLong
  else
    match GenerateFromPassword pw DefaultCost with
    | inr msg => inr (ErrBcrypt msg)
    | inl hashedPassword =>
        let u := apply_conf conf (mkUser id hashedPassword 0 false now) in
        inl (if version u =? 0 then set_version u rnd else u)
    end.

(** [SetPassword]: the account afterwards and the returned error. *)
Definition SetPassword (u : User) (pw : string) : User * option error :=
  match GenerateFromPassword pw DefaultCost with
  | inr msg => (u, Some (ErrBcrypt msg))
  | inl hashedPassword =>
      (fst (updateVersion (set_password u hashedPassword)), None)
  end.

Definition account_step (u : User) (op : AccountOp) : User :=
  match op with
  | OpSetPassword pw => fst (SetPassword u pw)
  | OpBumpVersion => fst (updateVersion u)
  | OpSetVersion v => SetVersion u v
  | OpCheckVersion _ => u
  | OpVersion => u
  end.

Definition account_run (u : User) (ops : list AccountOp) : User :=
  fold_left account_step ops u.

(** The values [Version()] returns after each operation, oldest first. *)
Fixpoint version_trace (u : User) (ops : list AccountOp) : list Z :=
  match ops with
  | [] => []
  | op :: ops' =>
      let u' := account_step u op in Version u' :: version_trace u' ops'
  end.

Definition is_SetVersion (op : AccountOp) : bool :=
  match op with OpSetVersion _ => true | _ => false end.

End Accounts.

(** ** Movies *)

(** Modelled from the spec: the base info record of a movie entry
    ([BaseMovieInfo] of movie.go), with the fields [User.NewMovie]
    fills.  A nil header map is [None]. *)
Record BaseMovieInfo : Type := mkBaseMovieInfo {
  Url : string;
  Name : string;
  Live : bool;
  Proxy : bool;
  RtmpSource : bool;
  Type_ : string;
  Headers : option (gmap string string)
}.

Definition set_Headers (b : BaseMovieInfo) (h : option (gmap string string))
  : BaseMovieInfo :=
  mkBaseMovieInfo (Url b) (Name b) (Live b) (Proxy b) (RtmpSource b) (Type_ b) h.

(** Modelled from the spec: a movie entry ([Movie] of movie.go) with the
    fields user.go reads and writes: the id behind [Id()], the embedded
    base info, the pull key, the creation time and the account behind
    [Creator()], [None] for a nil pointer. *)
Record Movie : Type := mkMovie {
  Id : Z;
  Base : BaseMovieInfo;
  PullKey : string;
  CreatedAt : Z;
  Creator : option loc
}.

Definition set_Base (m : Movie) (b : BaseMovieInfo) : Movie :=
  mkMovie (Id m) b (PullKey m) (CreatedAt m) (Creator m).

Definition set_PullKey (m : Movie) (k : string) : Movie :=
  mkMovie (Id m) (Base m) k (CreatedAt m) (Creator m).

Definition set_Creator (m : Movie) (c : option loc) : Movie :=
  mkMovie (Id m) (Base m) (PullKey m) (CreatedAt m) c.

(** Modelled from the spec: the view [pb.MovieInfo] that [User.Movie]
    returns, with the fields it fills. *)
Record pb_MovieInfo : Type := mkPbMovieInfo {
  pb_Id : Z;
  pb_Url : string;
  pb_Name : string;
  pb_Live : bool;
  pb_Proxy : bool;
  pb_RtmpSource : bool;
  pb_Type : string;
  pb_Headers : option (gmap string string);
  pb_PullKey : string;
  pb_CreatedAt : Z;
  pb_Creator : string
}.

(** Modelled from the spec: the view [MovieInfo] that [User.Movies]
    returns, with the fields it fills. *)
Record MovieInfo : Type := mkMovieInfo {
  mi_Id : Z;
  mi_Base : BaseMovieInfo;
  mi_PullKey : string;
  mi_CreatedAt : Z;
  mi_Creator : string
}.

Definition mi_set_Headers (v : MovieInfo) (h : option (gmap string string))
  : MovieInfo :=
  mkMovieInfo (mi_Id v) (set_Headers (mi_Base v) h) (mi_PullKey v)
    (mi_CreatedAt v) (mi_Creator v).

(** ** The room *)

(** Modelled from the spec: the room ([Room] of room.go), with the parts
    user.go touches: the accounts [User] pointers refer to, the root
    account, the movie-id counter, the movie set in traversal order, and
    the live channels of [rtmpa].  A pointer to a stored movie is its
    position in [movies]. *)
Record Room : Type := mkRoom {
  accounts : gmap loc User;
  rootUser : option loc;
  mid : Z;
  movies : list Movie;
  rtmpa : gset string
}.

Definition set_mid (r : Room) (v : Z) : Room :=
  mkRoom (accounts r) (rootUser r) v (movies r) (rtmpa r).

Definition set_movies (r : Room) (ms : list Movie) : Room :=
  mkRoom (accounts r) (rootUser r) (mid r) ms (rtmpa r).

Definition set_rtmpa (r : Room) (cs : gset string) : Room :=
  mkRoom (accounts r) (rootUser r) (mid r) (movies r) cs.

(** A write through a movie pointer. *)
Definition store_movie (r : Room) (p : nat) (m : Movie) : Room :=
  set_movies r (<[p := m]> (movies r)).

(** Modelled from the spec: [movies.GetMovie] of the ordered movie set
    (movies.go): the entry with this id and the pointer to it, or
    not-found. *)
Fixpoint GetMovie (ms : list Movie) (id : Z) : (nat * Movie) + error :=
  match ms with
  | [] => inr ErrMovieNotFound
  | m :: ms' =>
      if Id m =? id then inl (O, m)
      else match GetMovie ms' id with
           | inl (p, m') => inl (S p, m')
           | inr e => inr e
           end
  end.

(** Modelled from the spec: [movies.range_] of the ordered movie set:
    the visitor is called on every entry in order until it answers
    false.  The visitor works on a state [S] (the variables its closure
    captures) and may fail on a nil pointer. *)
Fixpoint range_ {S : Type} (f : Movie -> S -> option (S * bool))
  (ms : list Movie) (s : S) : option S :=
  match ms with
  | [] => Some s
  | m :: ms' =>
      match f m s with
      | None => None
      | Some (s', true) => range_ f ms' s'
      | Some (s', false) => Some s'
      end
  end.

(** Modelled from the spec: [rtmpa.DelChannel], the release of a live
    channel; releasing an absent channel changes nothing. *)
Definition DelChannel (cs : gset string) (k : string) : gset string :=
  cs ∖ {[k]}.

(** [u.IsRoot()]: pointer equality with the room's root account. *)
Definition IsRoot (r : Room) (u : loc) : bool :=
  bool_decide (rootUser r = Some u).

(** [m.Creator().Name()]; [None] when a pointer on the way is nil. *)
Definition Creator_Name (r : Room) (m : Movie) : option string :=
  c ← Creator m; cu ← accounts r !! c; Some (name cu).

(** ** Playlist operations of an account handle *)

(** The struct literal [&pb.MovieInfo{...}] of [User.Movie]: every field
    copied from the entry [m], the creator given by name. *)
Definition pb_view (m : Movie) (creatorName : string) : pb_MovieInfo :=
  mkPbMovieInfo (Id m) (Url (Base m)) (Name (Base m)) (Live (Base m))
    (Proxy (Base m)) (RtmpSource (Base m)) (Type_ (Base m))
    (Headers (Base m)) (PullKey m) (CreatedAt m) creatorName.

(** [func (u *User) Movie(id uint64)].  The receiver [u] is read
    through [accounts]; the result is the room afterwards with the view
    or the error, and [None] stands for a nil-pointer panic.  The
    assignment in the final [if] goes through [m], the pointer
    [GetMovie] returned. *)
Definition User_Movie (u : loc) (id : Z) (r : Room)
  : option (Room * (pb_MovieInfo + error)) :=
  usr ← accounts r !! u;
  match GetMovie (movies r) id with
  | inr err => Some (r, inr err)
  | inl (p, m) =>
      creatorName ← Creator_Name r m;
      let movie := pb_view m creatorName in
      if pb_Proxy movie && negb (String.eqb (name usr) (pb_Creator movie))
      then Some (store_movie r p (set_Base m (set_Headers (Base m) None)),
                 inl movie)
      else Some (r, inl movie)
  end.

(** The visitor of [User.Movies]: it builds the view [m] of the entry
    [e], clears the headers of the view when the rule asks for it, and
    appends the view. *)
Definition Movies_visitor (r : Room) (usr : User) (e : Movie)
  (acc : list MovieInfo) : option (list MovieInfo * bool) :=
  creatorName ← Creator_Name r e;
  let m :=
    mkMovieInfo (Id e)
      (mkBaseMovieInfo (Url (Base e)) (Name (Base e)) (Live (Base e))
         (Proxy (Base e)) (RtmpSource (Base e)) (Type_ (Base e))
         (Headers (Base e)))
      (PullKey e) (CreatedAt e) creatorName in
  let m :=
    if Proxy (Base e) && negb (String.eqb (name usr) (mi_Creator m))
    then mi_set_Headers m None else m in
  Some (acc ++ [m], true).

(** [func (u *User) Movies()] *)
Definition User_Movies (u : loc) (r : Room)
  : option (Room * list MovieInfo) :=
  usr ← accounts r !! u;
  vs ← range_ (Movies_visitor r usr) (movies r) [];
  Some (r, vs).

(** The switch at the end of [User.EditMovie], after the base info of
    the entry [m] has been replaced: the room's channels and the entry
    afterwards. *)
Definition EditMovie_switch (pre movie : BaseMovieInfo) (cs : gset string)
  (m : Movie) : gset string * Movie :=
  if RtmpSource pre && negb (RtmpSource movie)
  then (DelChannel cs (PullKey m), set_PullKey m "")
  else if Proxy pre && negb (Proxy movie)
  then (cs, set_PullKey m "")
  else (cs, m).

(** The permission test of [User.EditMovie], true when the edit is
    refused; the creator is only read when the requester is neither
    admin nor root. *)
Definition EditMovie_refused (r : Room) (u : loc) (usr : User) (m : Movie)
  : option bool :=
  if negb (IsAdmin usr) && negb (IsRoot r u)
  then creatorName ← Creator_Name r m;
       Some (negb (String.eqb creatorName (name usr)))
  else Some false.

(** [func (u *User) EditMovie(id uint64, movie BaseMovieInfo)] *)
Definition User_EditMovie (u : loc) (id : Z) (movie : BaseMovieInfo)
  (r : Room) : option (Room * option error) :=
  usr ← accounts r !! u;
  match GetMovie (movies r) id with
  | inr err => Some (r, Some err)
  | inl (p, m) =>
      refused ← EditMovie_refused r u usr m;
      if (refused : bool) then Some (r, Some ErrNotCreator)
      else
        let pre := Base m in
        let '(cs, m') := EditMovie_switch pre movie (rtmpa r) (set_Base m movie) in
        Some (store_movie (set_rtmpa r cs) p m', None)
  end.

(** Modelled from the spec: the option type [MovieConf] of movie.go, a
    function that updates the movie it is given. *)
Definition MovieConf : Type := Movie -> Movie.

(** Modelled from the spec: the option [WithCreator] of movie.go, which
    sets the creator reference of the node. *)
Definition WithCreator (u : loc) : MovieConf :=
  fun m => set_Creator m (Some u).

Section Movies.

(** The validation of the base info, done by the movie constructor. *)
Variable validate : BaseMovieInfo -> option error.

(** Modelled from the spec: the package-level [NewMovieWithBaseMovie]
    of movie.go: it builds the node with the given id and base info,
    applies the options in order, and fails only on the validation of
    the base info. *)
Definition NewMovieWithBaseMovie (id : Z) (baseMovie : BaseMovieInfo)
  (conf : list MovieConf) (now : Z) : Movie + error :=
  match validate baseMovie with
  | Some err => inr err
  | None =>
      inl (fold_left (fun acc c => c acc) conf
             (mkMovie id baseMovie "" now None))
  end.

(** [func (u *User) NewMovieWithBaseMovie(baseMovie, conf...)]: the
    counter is incremented first, then the constructor runs with the new
    value and with [WithCreator(u)] appended to the options. *)
Definition User_NewMovieWithBaseMovie (u : loc) (baseMovie : BaseMovieInfo)
  (conf : list MovieConf) (now : Z) (r : Room)
  : option (Room * (Movie + error)) :=
  _ ← accounts r !! u;
  let id := wrap64 (mid r + 1) in
  Some (set_mid r id,
        NewMovieWithBaseMovie id baseMovie (conf ++ [WithCreator u]) now).

(** [func (u *User) NewMovie(url, name, type_, live, proxy, rtmpSource,
    headers, conf...)] *)
Definition User_NewMovie (u : loc) (url name_ type_ : string)
  (live proxy rtmpSource : bool) (headers : option (gmap string string))
  (conf : list MovieConf) (now : Z) (r : Room)
  : option (Room * (Movie + error)) :=
  User_NewMovieWithBaseMovie u
    (mkBaseMovieInfo url name_ live proxy rtmpSource type_ headers)
    conf now r.

End Movies.

(** ** Runs of a room *)

(** The calls a client makes on a room through account handles; a new
    movie is created without options of the caller's own. *)
Inductive RoomOp : Type :=
  | OpNewMovie (u : loc) (baseMovie : BaseMovieInfo) (now : Z)
  | OpGetMovie (u : loc) (id : Z)
  | OpListMovies (u : loc)
  | OpEditMovie (u : loc) (id : Z) (movie : BaseMovieInfo)
  | OpDelMovie (id : Z).

(** Modelled from the spec: the removal of an entry from the ordered
    movie set, a splice that leaves the other entries in order. *)
Definition DelMovie (id : Z) (r : Room) : Room :=
  set_movies r (filter (fun m => Id m ≠ id) (movies r)).

(** Modelled from the spec: the append of a new node at the tail of the
    ordered movie set. *)
Definition PushBackMovie (m : Movie) (r : Room) : Room :=
  set_movies r (movies r ++ [m]).

Section Runs.

Variable validate : BaseMovieInfo -> option error.

(** One call: the room afterwards and the id of the movie a successful
    new-movie call created. *)
Definition room_step (op : RoomOp) (r : Room) : option (Room * list Z) :=
  match op with
  | OpNewMovie u baseMovie now =>
      '(r', res) ← User_NewMovieWithBaseMovie validate u baseMovie [] now r;
      match res with
      | inl m => Some (PushBackMovie m r', [Id m])
      | inr _ => Some (r', [])
      end
  | OpGetMovie u id =>
      '(r', _) ← User_Movie u id r; Some (r', [])
  | OpListMovies u =>
      '(r', _) ← User_Movies u r; Some (r', [])
  | OpEditMovie u id movie =>
      '(r', _) ← User_EditMovie u id movie r; Some (r', [])
  | OpDelMovie id => Some (DelMovie id r, [])
  end.

(** The ids assigned along a run, in call order; a panic ends the run. *)
Fixpoint assigned_ids (ops : list RoomOp) (r : Room) : list Z :=
  match ops with
  | [] => []
  | op :: ops' =>
      match room_step op r with
      | None => []
      | Some (r', ids) => ids ++ assigned_ids ops' r'
      end
  end.

End Runs.

(** The number of new-movie calls of a run. *)
Fixpoint count_new (ops : list RoomOp) : Z :=
  match ops with
  | [] => 0
  | OpNewMovie _ _ _ :: ops' => 1 + count_new ops'
  | _ :: ops' => count_new ops'
  end.

(** ** Sample data *)

(** A stand-in for the hashing primitive that never fails. *)
Definition sample_hash (pw : string) (cost : Z) : string + string :=
  inl ("$2a$" +:+ pw).

(** A hashing primitive that always fails. *)
Definition failing_hash (pw : string) (cost : Z) : string + string :=
  inr "bcrypt: failure".

Definition no_validation (b : BaseMovieInfo) : option error := None.

Definition alice : User := mkUser "alice" "$2a$pw1" 7 false 0.
Definition bob : User := mkUser "bob" "$2a$pw2" 9 false 0.
Definition carol : User := mkUser "carol" "$2a$pw3" 11 true 0.

Definition alice_ptr : loc := 1%positive.
Definition bob_ptr : loc := 2%positive.
Definition carol_ptr : loc := 3%positive.

Definition sample_headers : option (gmap string string) :=
  Some {[ "Authorization" := "token" ]}.

(** alice's proxied movie with headers. *)
Definition movie_a : Movie :=
  mkMovie 1
    (mkBaseMovieInfo "http://x/a.mp4" "A" false true false "mp4" sample_headers)
    "" 100 (Some alice_ptr).

(** bob's live-source movie with a pull key; it is proxied as well. *)
Definition movie_b : Movie :=
  mkMovie 2
    (mkBaseMovieInfo "rtmp://x/b" "B" true true true "flv" None)
    "key-b" 200 (Some bob_ptr).

Definition sample_room : Room :=
  mkRoom {[ alice_ptr := alice; bob_ptr := bob; carol_ptr := carol ]}
    (Some alice_ptr) 2 [movie_a; movie_b] {[ "key-b" ]}.

(** An edit of bob's movie that keeps the live source and turns the
    proxy off. *)
Definition edit_b : BaseMovieInfo :=
  mkBaseMovieInfo "rtmp://x/b2" "B2" true false true "flv" None.

(** An edit of bob's movie that turns the live source off. *)
Definition edit_b_off : BaseMovieInfo :=
  mkBaseMovieInfo "http://x/b.mp4" "B" false true false "mp4" None.

(** A run with new movies, deletions, look-ups and an edit. *)
Definition sample_run : list RoomOp :=
  [OpNewMovie alice_ptr (Base movie_a) 300;
   OpDelMovie 3;
   OpGetMovie bob_ptr 1;
   OpNewMovie bob_ptr edit_b 301;
   OpEditMovie bob_ptr 4 edit_b_off;
   OpListMovies carol_ptr;
   OpDelMovie 1;
   OpNewMovie carol_ptr (Base movie_a) 302].

(** ** The redaction rule, in the words of the specification *)

(** Headers are visible to a requester when the proxy flag is false or
    the requester is the creator. *)
Definition headers_visible (requester creatorName : string) (e : Movie) : Prop :=
  Proxy (Base e) = false ∨ requester = creatorName.

(** [v] is the view of the stored entry [e] for the requester: every
    field is the stored one, the creator is given by name, and the
    headers are the stored ones when visible and nil otherwise. *)
Definition view_of_entry (r : Room) (requester : string) (e : Movie)
  (v : MovieInfo) : Prop :=
  ∃ creatorName,
    Creator_Name r e = Some creatorName ∧
    mi_Id v = Id e ∧
    Url (mi_Base v) = Url (Base e) ∧
    Name (mi_Base v) = Name (Base e) ∧
    Live (mi_Base v) = Live (Base e) ∧
    Proxy (mi_Base v) = Proxy (Base e) ∧
    RtmpSource (mi_Base v) = RtmpSource (Base e) ∧
    Type_ (mi_Base v) = Type_ (Base e) ∧
    mi_PullKey v = PullKey e ∧
    mi_CreatedAt v = CreatedAt e ∧
    mi_Creator v = creatorName ∧
    (headers_visible requester creatorName e →
       Headers (mi_Base v) = Headers (Base e)) ∧
    (¬ headers_visible requester creatorName e →
       Headers (mi_Base v) = None).

(** The version never goes down along a run: each value [Version()]
    returns is at least every value it returned before. *)
Definition version_never_decreases (v0 : Z) (trace : list Z) : Prop :=
  StronglySorted Z.le (v0 :: trace).

(** The operations of a run that can increment the counter. *)
Fixpoint count_bumps (ops : list AccountOp) : Z :=
  match ops with
  | [] => 0
  | OpSetPassword _ :: ops' => 1 + count_bumps ops'
  | OpBumpVersion :: ops' => 1 + count_bumps ops'
  | _ :: ops' => count_bumps ops'
  end.

(** ** More of the account handle *)

Definition set_lastAct (u : User) (t : Z) : User :=
  mkUser (name u) (password u) (version u) (admin u) t.

(** [func (u *User) LastAct()] *)
Definition LastAct (u : User) : Z := lastAct u.

(** [func (u *User) UpdateLastAct()]: [atomic.SwapInt64] stores [now],
    the value of [time.Now().UnixMicro()], and returns the old value. *)
Definition UpdateLastAct (u : User) (now : Z) : User * Z :=
  (set_lastAct u now, lastAct u).

(** A series of [UpdateLastAct] calls at the given times: the account
    afterwards and the values the calls returned, oldest first. *)
Fixpoint UpdateLastAct_run (u : User) (times : list Z) : User * list Z :=
  match times with
  | [] => (u, [])
  | t :: times' =>
      let '(u1, old) := UpdateLastAct u t in
      let '(u2, olds) := UpdateLastAct_run u1 times' in
      (u2, old :: olds)
  end.

(** [n] calls of [updateVersion] in a row. *)
Fixpoint updateVersion_n (n : nat) (u : User) : User :=
  match n with
  | O => u
  | S n' => updateVersion_n n' (fst (updateVersion u))
  end.

(** [func (u *User) CheckPassword(password string)]; the argument
    [CompareHashAndPassword] is the primitive of [bcrypt], which returns
    the message of its error, or [None] for a nil error. *)
Definition CheckPassword
  (CompareHashAndPassword : string -> string -> option string)
  (u : User) (pw : string) : bool :=
  match CompareHashAndPassword (password u) pw with
  | None => true
  | Some _ => false
  end.

(** A stand-in for [bcrypt.CompareHashAndPassword] that goes with
    [sample_hash]. *)
Definition sample_compare (h pw : string) : option string :=
  if String.eqb h ("$2a$" +:+ pw) then None
  else Some "bcrypt: hashedPassword is not the hash of the given password".

(** Modelled from the spec: the connection hub of a room (hub.go), a
    map from account names to the one registered client, and the
    clients that have been closed. *)
Record Hub : Type := mkHub {
  clients : gmap string nat;
  closed : gset nat
}.

(** [func (u *User) CloseHub()]: [LoadAndDelete] takes the client
    registered under the account's name out of the map, and the client
    is closed when there was one. *)
Definition User_CloseHub (u : User) (h : Hub) : Hub :=
  match clients h !! name u with
  | Some c => mkHub (delete (name u) (clients h)) ({[c]} ∪ closed h)
  | None => h
  end.

Definition sample_hub : Hub :=
  mkHub {[ "alice" := 10%nat; "bob" := 11%nat ]} ∅.

(** The two options user.go defines. *)
Definition known_option (c : UserConf) : Prop :=
  (∃ v, c = WithUserVersion v) ∨ (∃ b, c = WithUserAdmin b).

(** How an entry may differ after [User.Movie]: in its headers only,
    which are the old ones or nil. *)
Definition same_but_headers (m m' : Movie) : Prop :=
  Id m' = Id m ∧ PullKey m' = PullKey m ∧ CreatedAt m' = CreatedAt m ∧
  Creator m' = Creator m ∧
  Url (Base m') = Url (Base m) ∧ Name (Base m') = Name (Base m) ∧
  Live (Base m') = Live (Base m) ∧ Proxy (Base m') = Proxy (Base m) ∧
  RtmpSource (Base m') = RtmpSource (Base m) ∧
  Type_ (Base m') = Type_ (Base m) ∧
  (Headers (Base m') = Headers (Base m) ∨ Headers (Base m') = None).

(** The sample room with a second account named bob, which is admin
    and root. *)
Definition room_with_admin_bob : Room :=
  mkRoom {[ alice_ptr := alice; bob_ptr := bob;
            carol_ptr := mkUser "bob" "$2a$pw9" 1 true 3 ]}
    (Some carol_ptr) 2 [movie_a; movie_b] {[ "key-b" ]}.

(** An option of a caller that names bob as creator. *)
Definition steal_credit : MovieConf := WithCreator bob_ptr.

(** ** The Emby caches (package cache) *)

(** The errors the cache functions build themselves, and any error a
    collaborator (database, user cache, url package, Emby client) hands
    back. *)
Inductive cache_error : Type :=
  | ErrServerIDRequired
  | ErrVendorNotFound
  | ErrNeedUserCache
  | ErrNotBound
  | ErrPathIsDir
  | ErrBadStatusCode
  | ErrCollaborator (msg : string).

(** The vendor binding [db.GetEmbyVendor] returns, with the fields the
    cache reads. *)
Record EmbyVendor : Type := mkEmbyVendor {
  vendor_Host : string;
  vendor_ServerID : string;
  vendor_ApiKey : string;
  vendor_Backend : string
}.

(** [type EmbyUserCacheData struct] *)
Record EmbyUserCacheData : Type := mkEmbyUserCacheData {
  Host : string;
  ServerID : string;
  ApiKey : string;
  Backend : string
}.

(** The answer of [cli.GetItem], with the fields the cache reads: the
    streams of a media source, the media sources of an item, the item. *)
Record MediaStreamInfo : Type := mkMediaStreamInfo {
  stream_Type : string;
  stream_Index : Z;
  stream_DisplayTitle : string;
  stream_Title : string;
  stream_DisplayLanguage : string
}.

Record MediaSourceInfo : Type := mkMediaSourceInfo {
  source_Id : string;
  source_Name : string;
  source_Container : string;
  source_MediaStreamInfo : list MediaStreamInfo
}.

Record GetItemResp : Type := mkGetItemResp {
  item_Id : string;
  item_IsFolder : bool;
  item_MediaSourceInfo : list MediaSourceInfo
}.

(** [emby.GetItemReq] as the cache fills it. *)
Record GetItemReq : Type := mkGetItemReq {
  req_Host : string;
  req_Token : string;
  req_ItemId : string
}.

(** One element of [EmbySource.URLs] and of [EmbySource.Subtitles]; the
    cache of a subtitle is given by the url it fetches. *)
Record SourceURL : Type := mkSourceURL {
  su_URL : string;
  su_Name : string
}.

Record Subtitle : Type := mkSubtitle {
  sub_URL : string;
  sub_Type : string;
  sub_Name : string;
  sub_Cache : string
}.

(** [type EmbySource struct] and [type EmbyMovieCacheData struct] *)
Record EmbySource : Type := mkEmbySource {
  URLs : list SourceURL;
  Subtitles : list Subtitle
}.

Record EmbyMovieCacheData : Type := mkEmbyMovieCacheData {
  Sources : list EmbySource
}.

Section EmbyCache.

(** [db.GetEmbyVendor] *)
Variable GetEmbyVendor : string -> string -> EmbyVendor + cache_error.

(** [func EmbyAuthorizationCacheWithUserIDInitFunc(userID, serverID)] *)
Definition EmbyAuthorizationCacheWithUserIDInitFunc (userID serverID : string)
  : EmbyUserCacheData + cache_error :=
  if String.eqb serverID "" then inr ErrServerIDRequired
  else
    match GetEmbyVendor userID serverID with
    | inr err => inr err
    | inl v =>
        if String.eqb (vendor_ApiKey v) "" || String.eqb (vendor_Host v) ""
        then inr ErrVendorNotFound
        else inl (mkEmbyUserCacheData (vendor_Host v) (vendor_ServerID v)
                    (vendor_ApiKey v) (vendor_Backend v))
    end.

(** The fields of [url.URL] other than [Path] and [RawQuery], which the
    cache never writes. *)
Variable url_rest : Type.

(** [url.URL] *)
Record URL : Type := mkURL {
  url_Rest : url_rest;
  url_Path : string;
  url_RawQuery : string
}.

(** [url.Parse], the method [String] of a url, [url.JoinPath] and
    [url.Values.Encode] of the standard library. *)
Variable url_Parse : string -> URL + cache_error.
Variable url_String : URL -> string.
Variable url_JoinPath : string -> list string -> string + cache_error.
Variable Values_Encode : gmap string (list string) -> string.

(** [model.GetEmbyServerIdFromPath]: the server id, the rest of the
    path, and the error. *)
Variable GetEmbyServerIdFromPath : string -> string * string * option cache_error.

(** [args[0].LoadOrStore(ctx, serverID)] of the user cache handed in. *)
Variable EmbyUserCache : Type.
Variable LoadOrStore : EmbyUserCache -> string -> EmbyUserCacheData + cache_error.

(** [vendor.LoadEmbyClient(backend).GetItem(ctx, req)] *)
Variable GetItem : string -> GetItemReq -> GetItemResp + cache_error.

(** The name of a subtitle: the display title, else the title, else the
    display language. *)
Definition subtitle_name (msi : MediaStreamInfo) : string :=
  if String.eqb (stream_DisplayTitle msi) "" then
    if negb (String.eqb (stream_Title msi) "") then stream_Title msi
    else stream_DisplayLanguage msi
  else stream_DisplayTitle msi.

(** The inner loop [for _, msi := range v.MediaStreamInfo]: the url
    [u], which the loop writes, and the subtitles appended so far. *)
Fixpoint subtitles_loop (dataId vId : string) (msis : list MediaStreamInfo)
  (u : URL) (subs : list Subtitle) : (URL * list Subtitle) + cache_error :=
  match msis with
  | [] => inl (u, subs)
  | msi :: msis' =>
      if String.eqb (stream_Type msi) "Subtitle" then
        let subtutleType := "srt" in
        match url_JoinPath "emby"
                ["Videos"; dataId; vId; "Subtitles";
                 pretty (stream_Index msi); "Stream." +:+ subtutleType] with
        | inr err => inr err
        | inl result =>
            let u := mkURL (url_Rest u) result "" in
            let url := url_String u in
            subtitles_loop dataId vId msis' u
              (subs ++ [mkSubtitle url subtutleType (subtitle_name msi) url])
        end
      else subtitles_loop dataId vId msis' u subs
  end.

(** The query of a video url: [api_key], [Static] and [MediaSourceId]. *)
Definition video_query (apiKey vId : string) : gmap string (list string) :=
  <["MediaSourceId" := [vId]]>
    (<["Static" := ["true"]]> (<["api_key" := [apiKey]]> ∅)).

(** The outer loop [for i, v := range data.MediaSourceInfo]: the
    elements of [resp.Sources] from the current index on.  A source
    without container is skipped, which leaves the zero value at its
    index. *)
Fixpoint sources_loop (apiKey dataId : string) (vs : list MediaSourceInfo)
  (u : URL) : list EmbySource + cache_error :=
  match vs with
  | [] => inl []
  | v :: vs' =>
      if String.eqb (source_Container v) "" then
        match sources_loop apiKey dataId vs' u with
        | inr err => inr err
        | inl rest => inl (mkEmbySource [] [] :: rest)
        end
      else
        match url_JoinPath "emby"
                ["Videos"; dataId; "stream." +:+ source_Container v] with
        | inr err => inr err
        | inl result =>
            let u := mkURL (url_Rest u) result
                       (Values_Encode (video_query apiKey (source_Id v))) in
            let urls := [mkSourceURL (url_String u) (source_Name v)] in
            match subtitles_loop dataId (source_Id v)
                    (source_MediaStreamInfo v) u [] with
            | inr err => inr err
            | inl (u, subs) =>
                match sources_loop apiKey dataId vs' u with
                | inr err => inr err
                | inl rest => inl (mkEmbySource urls subs :: rest)
                end
            end
        end
  end.

(** The function [NewEmbyMovieCacheInitFunc(movie)] returns, applied to
    the user caches [args].  [path] is
    [movie.Base.VendorInfo.Emby.Path], which the function overwrites:
    the result is the path afterwards with the data or the error. *)
Definition NewEmbyMovieCacheInitFunc (path : string)
  (args : list EmbyUserCache)
  : string * (EmbyMovieCacheData + cache_error) :=
  match args with
  | [] => (path, inr ErrNeedUserCache)
  | cache :: _ =>
      let '(serverID, path, err) := GetEmbyServerIdFromPath path in
      match err with
      | Some err => (path, inr err)
      | None =>
          match LoadOrStore cache serverID with
          | inr err => (path, inr err)
          | inl aucd =>
              if String.eqb (Host aucd) "" || String.eqb (ApiKey aucd) ""
              then (path, inr ErrNotBound)
              else
                match url_Parse (Host aucd) with
                | inr err => (path, inr err)
                | inl u =>
                    match GetItem (Backend aucd)
                            (mkGetItemReq (Host aucd) (ApiKey aucd) path) with
                    | inr err => (path, inr err)
                    | inl data =>
                        if item_IsFolder data then (path, inr ErrPathIsDir)
                        else
                          match sources_loop (ApiKey aucd) (item_Id data)
                                  (item_MediaSourceInfo data) u with
                          | inr err => (path, inr err)
                          | inl sources =>
                              (path, inl (mkEmbyMovieCacheData sources))
                          end
                    end
                end
          end
      end
  end.

(** What a subtitle of the result is, given the stream it comes from. *)
Definition subtitle_of (rest : url_rest) (dataId vId : string)
  (msi : MediaStreamInfo) (s : Subtitle) : Prop :=
  ∃ p,
    url_JoinPath "emby"
      ["Videos"; dataId; vId; "Subtitles"; pretty (stream_Index msi);
       "Stream.srt"] = inl p ∧
    sub_URL s = url_String (mkURL rest p "") ∧
    sub_Cache s = sub_URL s ∧
    sub_Type s = "srt" ∧
    (stream_DisplayTitle msi ≠ "" → sub_Name s = stream_DisplayTitle msi) ∧
    (stream_DisplayTitle msi = "" → stream_Title msi ≠ "" →
       sub_Name s = stream_Title msi) ∧
    (stream_DisplayTitle msi = "" → stream_Title msi = "" →
       sub_Name s = stream_DisplayLanguage msi).

(** What an element of [Sources] is, given the media source it comes
    from. *)
Definition source_of (rest : url_rest) (apiKey dataId : string)
  (v : MediaSourceInfo) (src : EmbySource) : Prop :=
  (source_Container v = "" → src = mkEmbySource [] []) ∧
  (source_Container v ≠ "" →
     ∃ p,
       url_JoinPath "emby"
         ["Videos"; dataId; "stream." +:+ source_Container v] = inl p ∧
       URLs src =
         [mkSourceURL
            (url_String
               (mkURL rest p (Values_Encode (video_query apiKey (source_Id v)))))
            (source_Name v)] ∧
       Forall2 (subtitle_of rest dataId (source_Id v))
         (filter (fun msi => stream_Type msi = "Subtitle")
            (source_MediaStreamInfo v))
         (Subtitles src)).

End EmbyCache.

(** Sample collaborators of the Emby caches. *)

Definition sample_vendors (userID serverID : string)
  : EmbyVendor + cache_error :=
  if String.eqb serverID "srv1"
  then inl (mkEmbyVendor "http://emby.local" "srv1" "secret" "default")
  else if String.eqb serverID "srv2"
  then inl (mkEmbyVendor "http://emby.local" "srv2" "" "default")
  else inr (ErrCollaborator "record not found").

Definition sample_url_Parse (raw : string) : URL string + cache_error :=
  inl (mkURL string raw "" "").

Definition sample_url_String (u : URL string) : string :=
  url_Rest string u +:+ "/" +:+ url_Path string u +:+
  (if String.eqb (url_RawQuery string u) "" then ""
   else "?" +:+ url_RawQuery string u).

Definition sample_url_JoinPath (base : string) (elem : list string)
  : string + cache_error :=
  inl (fold_left (fun acc e => acc +:+ "/" +:+ e) elem base).

Definition sample_Values_Encode (q : gmap string (list string)) : string :=
  "MediaSourceId=" +:+ default "" (q !! "MediaSourceId" ≫= head) +:+
  "&Static=" +:+ default "" (q !! "Static" ≫= head) +:+
  "&api_key=" +:+ default "" (q !! "api_key" ≫= head).

Definition sample_GetEmbyServerIdFromPath (path : string)
  : string * string * option cache_error :=
  ("srv1", "item42", None).

(** A user cache that loads from [sample_vendors] for user ["u1"]. *)
Definition sample_LoadOrStore (cache : unit) (serverID : string)
  : EmbyUserCacheData + cache_error :=
  EmbyAuthorizationCacheWithUserIDInitFunc sample_vendors "u1" serverID.

Definition sample_item : GetItemResp :=
  mkGetItemResp "item42" false
    [mkMediaSourceInfo "ms1" "1080p" "mkv"
       [mkMediaStreamInfo "Video" 0 "H264" "" "";
        mkMediaStreamInfo "Subtitle" 2 "" "English (SRT)" "eng";
        mkMediaStreamInfo "Subtitle" 3 "" "" "ger"];
     mkMediaSourceInfo "ms2" "broken" "" [];
     mkMediaSourceInfo "ms3" "480p" "mp4" []].

Definition sample_GetItem (backend : string) (req : GetItemReq)
  : GetItemResp + cache_error :=
  if String.eqb (req_ItemId req) "item42" then inl sample_item
  else inr (ErrCollaborator "not found").

Definition sample_movie_init (path : string) (args : list unit)
  : string * (EmbyMovieCacheData + cache_error) :=
  NewEmbyMovieCacheInitFunc string sample_url_Parse sample_url_String
    sample_url_JoinPath sample_Values_Encode sample_GetEmbyServerIdFromPath
    unit sample_LoadOrStore sample_GetItem path args.

(** * Properties of accounts *)

Lemma wrap64_small (z : Z) : 0 <= z < uint64_modulus → wrap64 z = z.
Proof. intros H. unfold wrap64. apply Z.mod_small. exact H. Qed.

Lemma wrap64_max : wrap64 (uint64_max + 1) = 0.
Proof. reflexivity. Qed.

Lemma string_eqb_empty (s : string) :
  String.eqb s "" = false ↔ (1 <= String.length s)%nat.
Proof.
  destruct s as [|a s]; simpl; split; intros H; try done; lia.
Qed.

Section AccountProofs.

Variable gen : string -> Z -> string + string.

Lemma updateVersion_value (u : User) :
  snd (updateVersion u) = Version (fst (updateVersion u)).
Proof. reflexivity. Qed.

Lemma SetPassword_version (u : User) (pw : string) :
  Version (fst (SetPassword gen u pw)) = Version u ∨
  Version (fst (SetPassword gen u pw)) = wrap64 (Version u + 1).
Proof.
  unfold SetPassword. destruct (gen pw DefaultCost); simpl; auto.
Qed.

(** One step that is not [SetVersion] keeps the version or adds one to
    it, as long as the counter has room. *)
Lemma account_step_version (u : User) (op : AccountOp) :
  is_SetVersion op = false →
  0 <= Version u → Version u + 1 < uint64_modulus →
  Version u <= Version (account_step gen u op) <= Version u + 1.
Proof.
  intros Hop H0 H1.
  destruct op as [pw| |v|v|]; simpl in *; try discriminate; try lia.
  - destruct (SetPassword_version u pw) as [-> | ->]; [lia|].
    rewrite wrap64_small; lia.
  - unfold Version in *. rewrite wrap64_small; lia.
Qed.

Lemma account_step_no_bump (u : User) (op : AccountOp) :
  is_SetVersion op = false →
  count_bumps [op] = 0 →
  Version (account_step gen u op) = Version u.
Proof.
  destruct op; simpl; intros; try discriminate; reflexivity.
Qed.

Lemma count_bumps_cons (op : AccountOp) (ops : list AccountOp) :
  count_bumps (op :: ops) = count_bumps [op] + count_bumps ops.
Proof. destruct op; simpl; lia. Qed.

Lemma count_bumps_nonneg (ops : list AccountOp) : 0 <= count_bumps ops.
Proof.
  induction ops as [|op ops IH]; simpl; [lia|]. destruct op; lia.
Qed.

Lemma version_trace_bounds (ops : list AccountOp) :
  ∀ u : User,
    forallb (fun op => negb (is_SetVersion op)) ops = true →
    0 <= Version u →
    Version u + count_bumps ops < uint64_modulus →
    Forall (fun v => Version u <= v) (version_trace gen u ops) ∧
    StronglySorted Z.le (version_trace gen u ops).
Proof.
  induction ops as [|op ops IH]; intros u Hops H0 Hroom; simpl.
  - split; constructor.
  - simpl in Hops. apply andb_prop in Hops as [Hop Hops].
    apply negb_true_iff in Hop.
    rewrite count_bumps_cons in Hroom.
    pose proof (count_bumps_nonneg ops) as Hn.
    assert (Hstep : Version u <= Version (account_step gen u op)
                    <= Version u + count_bumps [op]).
    { destruct (Z.eq_dec (count_bumps [op]) 0) as [Hz|Hz].
      - rewrite (account_step_no_bump u op Hop Hz). lia.
      - assert (count_bumps [op] = 1) as -> by (destruct op; simpl in *; lia).
        apply account_step_version; [done|lia|].
        destruct op; simpl in *; lia. }
    destruct (IH (account_step gen u op) Hops) as [Hall Hsorted]; [lia|lia|].
    split.
    + constructor; [lia|].
      eapply Forall_impl; [exact Hall|]. simpl. intros v Hv. lia.
    + constructor; assumption.
Qed.

End AccountProofs.

(** ** The version counter *)

(** C3 as stated does not hold: [SetVersion] stores whatever it is
    given, so the version read after it can be smaller than the one read
    before; and the increment of a counter at [2^64 - 1] wraps to 0. *)
Lemma version_can_decrease :
  version_trace sample_hash alice [OpVersion; OpSetVersion 3] = [7; 3] ∧
  ¬ version_never_decreases (Version alice)
      (version_trace sample_hash alice [OpVersion; OpSetVersion 3]) ∧
  version_trace sample_hash (set_version alice uint64_max) [OpBumpVersion]
    = [0] ∧
  ¬ version_never_decreases (Version (set_version alice uint64_max))
      (version_trace sample_hash (set_version alice uint64_max)
         [OpBumpVersion]).
Proof.
  split; [reflexivity|]. split.
  - intros H. apply StronglySorted_inv in H as [_ H].
    apply Forall_inv_tail, Forall_inv in H. vm_compute in H. apply H.
    reflexivity.
  - split; [reflexivity|].
    intros H. apply StronglySorted_inv in H as [_ H].
    apply Forall_inv in H. vm_compute in H. apply H. reflexivity.
Qed.

(** C3 (amended): along every run of SetPassword, BumpVersion,
    CheckVersion and Version calls on an account, with no SetVersion
    among them and with room left in the 64-bit counter for the
    increments of the run, the values Version() returns never go down;
    SetVersion stores the value it is given, whatever the current one. *)
Theorem version_monotone_without_SetVersion
  (gen : string -> Z -> string + string) (u : User) (ops : list AccountOp) :
  forallb (fun op => negb (is_SetVersion op)) ops = true →
  0 <= Version u →
  Version u + count_bumps ops < uint64_modulus →
  version_never_decreases (Version u) (version_trace gen u ops) ∧
  ∀ v, Version (SetVersion u v) = v.
Proof.
  intros Hops H0 Hroom. split; [|reflexivity].
  destruct (version_trace_bounds gen ops u Hops H0 Hroom) as [Hall Hsorted].
  unfold version_never_decreases. constructor; assumption.
Qed.

Lemma version_monotone_without_SetVersion_witness :
  version_never_decreases 7
    (version_trace sample_hash alice
       [OpSetPassword "new"; OpBumpVersion; OpCheckVersion 9; OpVersion;
        OpSetPassword ""]) ∧
  ∀ v, Version (SetVersion alice v) = v.
Proof.
  apply (version_monotone_without_SetVersion sample_hash alice
           [OpSetPassword "new"; OpBumpVersion; OpCheckVersion 9; OpVersion;
            OpSetPassword ""]).
  - reflexivity.
  - vm_compute. discriminate.
  - vm_compute. reflexivity.
Defined.

(** ** Passwords *)

(** [SetPassword] hands any password to the hashing primitive: when the
    primitive succeeds, the hash is stored and the version incremented. *)
Lemma SetPassword_hashes_any_password
  (gen : string -> Z -> string + string) (u : User) (pw h : string) :
  gen pw DefaultCost = inl h →
  SetPassword gen u pw =
    (mkUser (name u) h (wrap64 (version u + 1)) (admin u) (lastAct u), None).
Proof. intros Hgen. unfold SetPassword. rewrite Hgen. reflexivity. Qed.

(** The only error [SetPassword] returns is the one of the hashing
    primitive, and then the account is unchanged. *)
Lemma SetPassword_error_is_bcrypt
  (gen : string -> Z -> string + string) (u : User) (pw : string) (e : error) :
  snd (SetPassword gen u pw) = Some e →
  (∃ msg, e = ErrBcrypt msg) ∧ fst (SetPassword gen u pw) = u.
Proof.
  unfold SetPassword. destruct (gen pw DefaultCost) as [h|msg]; simpl.
  - discriminate.
  - intros [= <-]. split; [by exists msg|reflexivity].
Qed.

(** C5: SetPassword does not check the bounds account creation checks.
    With a hashing primitive that accepts them, the empty password and
    a password of 33 bytes are both stored without an error and the
    version goes from 7 to 8, where NewUser returns the two bounds
    errors; and whatever the primitive, SetPassword never returns a
    bounds error. *)
Theorem SetPassword_accepts_empty_and_long :
  SetPassword sample_hash alice "" = (mkUser "alice" "$2a$" 8 false 0, None) ∧
  String.length "123456789012345678901234567890123" = 33%nat ∧
  SetPassword sample_hash alice "123456789012345678901234567890123" =
    (mkUser "alice" "$2a$123456789012345678901234567890123" 8 false 0, None) ∧
  NewUser sample_hash "alice" "" [] 0 1 = inr ErrUserPasswordEmpty ∧
  NewUser sample_hash "alice" "123456789012345678901234567890123" [] 0 1
    = inr ErrUserPasswordTooLong ∧
  ∀ (gen : string -> Z -> string + string) (u : User) (pw : string),
    snd (SetPassword gen u pw) ≠ Some ErrUserPasswordEmpty ∧
    snd (SetPassword gen u pw) ≠ Some ErrUserPasswordTooLong.
Proof.
  split; [apply SetPassword_hashes_any_password; reflexivity|].
  split; [reflexivity|].
  split; [apply SetPassword_hashes_any_password; reflexivity|].
  split; [reflexivity|]. split; [reflexivity|].
  intros gen u pw.
  split; intros H; apply SetPassword_error_is_bcrypt in H as [[msg Hmsg] _];
    discriminate.
Qed.

(** ** Account creation *)

Lemma apply_conf_app (cs ds : list UserConf) (u : User) :
  apply_conf (cs ++ ds) u = apply_conf ds (apply_conf cs u).
Proof. unfold apply_conf. apply fold_left_app. Qed.

(** The last [WithUserVersion] option decides the version. *)
Lemma apply_conf_WithUserVersion_last (cs : list UserConf) (v : Z) (u : User) :
  version (apply_conf (cs ++ [WithUserVersion v]) u) = v.
Proof. rewrite apply_conf_app. reflexivity. Qed.

(** Options that only set the admin flag leave the version alone. *)
Lemma apply_conf_admin_only (bs : list bool) (u : User) :
  version (apply_conf (map WithUserAdmin bs) u) = version u.
Proof.
  revert u. induction bs as [|b bs IH]; intros u; simpl; [reflexivity|].
  unfold apply_conf in IH. rewrite IH. reflexivity.
Qed.

(** C9 as stated does not hold: a version of 0 supplied by an option is
    taken for unset and replaced by the random seed; and with an empty
    name as well as an empty password the error is the one of the name. *)
Lemma NewUser_zero_version_is_reseeded :
  (∃ u, NewUser sample_hash "alice" "pw1" [WithUserVersion 0] 5 77 = inl u ∧
        Version u = 77) ∧
  NewUser sample_hash "" "" [] 5 77 = inr ErrUsernameEmpty.
Proof.
  split; [|reflexivity]. eexists. split; reflexivity.
Qed.

(** C9 (amended): NewUser checks the name first and the password second.
    It fails with the empty-name error when the name is empty and the
    name-too-long error when the name exceeds 32 bytes; for a name of
    1 to 32 bytes it fails with the empty-password error when the
    password is empty and the password-too-long error when it exceeds 32
    bytes; for a name and a password of 1 to 32 bytes it returns the
    error of the hashing primitive when that fails, and otherwise an
    account, made of the name, the hash and the options, whose version
    is the one the options leave when that is not 0, and the random seed
    when the options leave 0 (none set, or 0 supplied). *)
Theorem NewUser_checks_then_seeds
  (gen : string -> Z -> string + string) (id pw : string)
  (conf : list UserConf) (now rnd : Z) :
  (id = "" → NewUser gen id pw conf now rnd = inr ErrUsernameEmpty) ∧
  ((32 < String.length id)%nat →
     NewUser gen id pw conf now rnd = inr ErrUsernameTooLong) ∧
  ((1 <= String.length id <= 32)%nat → pw = "" →
     NewUser gen id pw conf now rnd = inr ErrUserPasswordEmpty) ∧
  ((1 <= String.length id <= 32)%nat → (32 < String.length pw)%nat →
     NewUser gen id pw conf now rnd = inr ErrUserPasswordTooLong) ∧
  ((1 <= String.length id <= 32)%nat → (1 <= String.length pw <= 32)%nat →
     match gen pw DefaultCost with
     | inr msg => NewUser gen id pw conf now rnd = inr (ErrBcrypt msg)
     | inl h =>
         let u0 := apply_conf conf (mkUser id h 0 false now) in
         ∃ u, NewUser gen id pw conf now rnd = inl u ∧
              name u = name u0 ∧ password u = password u0 ∧
              admin u = admin u0 ∧ lastAct u = lastAct u0 ∧
              Version u = (if version u0 =? 0 then rnd else version u0)
     end).
Proof.
  assert (Hname : (1 <= String.length id <= 32)%nat →
                  String.eqb id "" = false ∧
                  (32 <? String.length id)%nat = false).
  { intros [H1 H2]. split; [by apply string_eqb_empty|].
    apply Nat.ltb_ge. exact H2. }
  repeat split.
  - intros ->. reflexivity.
  - intros Hlen. unfold NewUser.
    destruct (String.eqb_spec id "") as [->|_]; [simpl in Hlen; lia|].
    apply Nat.ltb_lt in Hlen. rewrite Hlen. reflexivity.
  - intros Hid ->. unfold NewUser.
    destruct (Hname Hid) as [-> ->]. reflexivity.
  - intros Hid Hlen. unfold NewUser.
    destruct (Hname Hid) as [-> ->].
    destruct (String.eqb_spec pw "") as [->|_]; [simpl in Hlen; lia|].
    apply Nat.ltb_lt in Hlen. rewrite Hlen. reflexivity.
  - intros Hid Hpw. unfold NewUser.
    destruct (Hname Hid) as [-> ->].
    assert (String.eqb pw "" = false) as -> by (apply string_eqb_empty; lia).
    assert ((32 <? String.length pw)%nat = false) as ->
      by (apply Nat.ltb_ge; lia).
    destruct (gen pw DefaultCost) as [h|msg]; [|reflexivity].
    cbv zeta. eexists. split; [reflexivity|].
    unfold Version.
    destruct (version (apply_conf conf (mkUser id h 0 false now)) =? 0);
      done.
Qed.

Lemma NewUser_checks_then_seeds_witness :
  NewUser sample_hash "" "pw1" [] 5 77 = inr ErrUsernameEmpty ∧
  NewUser sample_hash "alice" "" [] 5 77 = inr ErrUserPasswordEmpty ∧
  NewUser failing_hash "alice" "pw1" [] 5 77
    = inr (ErrBcrypt "bcrypt: failure") ∧
  ∃ u, NewUser sample_hash "alice" "pw1" [WithUserVersion 42] 5 77 = inl u ∧
       name u = "alice" ∧ password u = "$2a$pw1" ∧ admin u = false ∧
       lastAct u = 5 ∧ Version u = 42.
Proof.
  split; [|split; [|split]].
  - apply (NewUser_checks_then_seeds sample_hash "" "pw1" [] 5 77).
    reflexivity.
  - apply (NewUser_checks_then_seeds sample_hash "alice" "" [] 5 77);
      [simpl; lia|reflexivity].
  - apply (NewUser_checks_then_seeds failing_hash "alice" "pw1" [] 5 77);
      simpl; lia.
  - apply (NewUser_checks_then_seeds sample_hash "alice" "pw1"
             [WithUserVersion 42] 5 77); simpl; lia.
Defined.

(** * Properties of the playlist operations *)

(** ** The movie set *)

Lemma GetMovie_lookup (ms : list Movie) (id : Z) (p : nat) (m : Movie) :
  GetMovie ms id = inl (p, m) → ms !! p = Some m ∧ Id m = id.
Proof.
  revert p. induction ms as [|e ms IH]; intros p; simpl; [discriminate|].
  destruct (Z.eqb_spec (Id e) id) as [Heq|Hne].
  - intros [= <- <-]. split; [reflexivity|exact Heq].
  - destruct (GetMovie ms id) as [[q m']|err]; [|discriminate].
    intros [= <- <-]. simpl. apply IH. reflexivity.
Qed.

(** A write through the pointer [GetMovie] returned is what the next
    [GetMovie] with the same id reads, when the write keeps the id. *)
Lemma GetMovie_store (ms : list Movie) (id : Z) (p : nat) (m m' : Movie) :
  GetMovie ms id = inl (p, m) → Id m' = Id m →
  GetMovie (<[p := m']> ms) id = inl (p, m').
Proof.
  revert p. induction ms as [|e ms IH]; intros p; simpl; [discriminate|].
  destruct (Z.eqb_spec (Id e) id) as [Heq|Hne].
  - intros [= <- <-] Hid. simpl. rewrite Hid.
    destruct (Z.eqb_spec (Id e) id); [reflexivity|contradiction].
  - destruct (GetMovie ms id) as [[q m0]|err]; [|discriminate].
    intros [= <- <-] Hid. simpl.
    destruct (Z.eqb_spec (Id e) id); [contradiction|].
    rewrite (IH q); [reflexivity..|exact Hid].
Qed.

(** ** Looking up one movie *)

(** What [User.Movie] does on an entry it finds: the view always carries
    the stored headers, and the stored entry loses them when the rule
    asks for a redaction. *)
Lemma User_Movie_found (r : Room) (u : loc) (id : Z) (usr : User)
  (p : nat) (m : Movie) (cn : string) :
  accounts r !! u = Some usr →
  GetMovie (movies r) id = inl (p, m) →
  Creator_Name r m = Some cn →
  User_Movie u id r =
    Some (if Proxy (Base m) && negb (String.eqb (name usr) cn)
          then store_movie r p (set_Base m (set_Headers (Base m) None))
          else r,
          inl (pb_view m cn)).
Proof.
  intros Hu Hget Hcn. unfold User_Movie. rewrite Hu. simpl.
  rewrite Hget, Hcn. simpl.
  destruct (Proxy (Base m) && negb (String.eqb (name usr) cn)); reflexivity.
Qed.

Lemma redaction_applies (usr : User) (m : Movie) (cn : string) :
  Proxy (Base m) = true → name usr ≠ cn →
  Proxy (Base m) && negb (String.eqb (name usr) cn) = true.
Proof.
  intros -> Hne. simpl. apply negb_true_iff.
  destruct (String.eqb_spec (name usr) cn); [contradiction|reflexivity].
Qed.

(** C1: on a proxied entry, the view User.Movie returns to a requester
    who is not the creator still carries the stored headers: the nil
    assignment of the redaction goes to the stored entry, not to the
    view. *)
Theorem User_Movie_non_creator_view_keeps_headers
  (r : Room) (u : loc) (id : Z) (usr : User) (p : nat) (m : Movie)
  (cn : string) :
  accounts r !! u = Some usr →
  GetMovie (movies r) id = inl (p, m) →
  Creator_Name r m = Some cn →
  Proxy (Base m) = true → name usr ≠ cn →
  ∃ r' v, User_Movie u id r = Some (r', inl v) ∧
          pb_Headers v = Headers (Base m).
Proof.
  intros Hu Hget Hcn Hproxy Hne.
  rewrite (User_Movie_found r u id usr p m cn Hu Hget Hcn).
  rewrite (redaction_applies usr m cn Hproxy Hne).
  eexists _, _. split; reflexivity.
Qed.

Lemma User_Movie_non_creator_view_keeps_headers_witness :
  ∃ r' v, User_Movie bob_ptr 1 sample_room = Some (r', inl v) ∧
          pb_Headers v = sample_headers.
Proof.
  apply (User_Movie_non_creator_view_keeps_headers sample_room bob_ptr 1
           bob 0%nat movie_a "alice").
  - reflexivity.
  - reflexivity.
  - reflexivity.
  - reflexivity.
  - discriminate.
Defined.

(** C2: on a proxied entry, a call of User.Movie by a requester who is
    not the creator changes the stored entry: afterwards the entry held
    in the movie set has nil headers. *)
Theorem User_Movie_non_creator_clears_stored_headers
  (r : Room) (u : loc) (id : Z) (usr : User) (p : nat) (m : Movie)
  (cn : string) :
  accounts r !! u = Some usr →
  GetMovie (movies r) id = inl (p, m) →
  Creator_Name r m = Some cn →
  Proxy (Base m) = true → name usr ≠ cn →
  ∃ r' v, User_Movie u id r = Some (r', inl v) ∧
          GetMovie (movies r') id =
            inl (p, set_Base m (set_Headers (Base m) None)).
Proof.
  intros Hu Hget Hcn Hproxy Hne.
  rewrite (User_Movie_found r u id usr p m cn Hu Hget Hcn).
  rewrite (redaction_applies usr m cn Hproxy Hne).
  eexists _, _. split; [reflexivity|].
  simpl. apply (GetMovie_store _ _ _ m); [exact Hget|reflexivity].
Qed.

Lemma User_Movie_non_creator_clears_stored_headers_witness :
  ∃ r' v, User_Movie bob_ptr 1 sample_room = Some (r', inl v) ∧
          GetMovie (movies r') 1 =
            inl (0%nat, set_Base movie_a (set_Headers (Base movie_a) None)).
Proof.
  apply (User_Movie_non_creator_clears_stored_headers sample_room bob_ptr 1
           bob 0%nat movie_a "alice").
  - reflexivity.
  - reflexivity.
  - reflexivity.
  - reflexivity.
  - discriminate.
Defined.

(** When the rule asks for no redaction (the entry is not proxied, or
    the requester bears the creator's name), the view carries the stored
    headers and the room is left as it was. *)
Lemma User_Movie_without_redaction (r : Room) (u : loc) (id : Z)
  (usr : User) (p : nat) (m : Movie) (cn : string) :
  accounts r !! u = Some usr →
  GetMovie (movies r) id = inl (p, m) →
  Creator_Name r m = Some cn →
  Proxy (Base m) = false ∨ name usr = cn →
  ∃ v, User_Movie u id r = Some (r, inl v) ∧
       pb_Headers v = Headers (Base m).
Proof.
  intros Hu Hget Hcn Hvis.
  rewrite (User_Movie_found r u id usr p m cn Hu Hget Hcn).
  assert (Proxy (Base m) && negb (String.eqb (name usr) cn) = false) as ->.
  { destruct Hvis as [-> | ->]; [reflexivity|].
    rewrite String.eqb_refl. apply andb_false_r. }
  eexists. split; reflexivity.
Qed.

(** The scenario of the specification on the code: after bob has looked
    at alice's proxied movie, alice herself gets nil headers. *)
Example creator_loses_headers_after_non_creator_call :
  Headers (Base movie_a) = sample_headers ∧
  ∃ r1 v1 r2 v2,
    User_Movie bob_ptr 1 sample_room = Some (r1, inl v1) ∧
    pb_Headers v1 = sample_headers ∧
    User_Movie alice_ptr 1 r1 = Some (r2, inl v2) ∧
    pb_Headers v2 = None.
Proof.
  split; [reflexivity|].
  eexists _, _, _, _. repeat split; vm_compute; reflexivity.
Qed.

(** ** Listing the movies *)

Lemma Movies_visitor_view (r : Room) (usr : User) (e : Movie)
  (acc : list MovieInfo) (cn : string) :
  Creator_Name r e = Some cn →
  ∃ v, Movies_visitor r usr e acc = Some (acc ++ [v], true) ∧
       view_of_entry r (name usr) e v.
Proof.
  intros Hcn. unfold Movies_visitor. rewrite Hcn. simpl.
  eexists. split; [reflexivity|].
  exists cn. unfold headers_visible.
  destruct (Proxy (Base e)) eqn:Hproxy; simpl.
  - destruct (String.eqb_spec (name usr) cn) as [Heq|Hne]; simpl.
    + repeat split; try done. intros Hnot. exfalso. apply Hnot. by right.
    + repeat split; try done. intros [Hf|Heq]; [discriminate|contradiction].
  - repeat split; try done. intros Hnot. exfalso. apply Hnot. by left.
Qed.

(** The traversal visits every entry once, in order, and never stops
    early. *)
Lemma range_Movies_visitor (r : Room) (usr : User) (ms : list Movie) :
  ∀ acc : list MovieInfo,
    Forall (fun e => is_Some (Creator_Name r e)) ms →
    ∃ vs, range_ (Movies_visitor r usr) ms acc = Some (acc ++ vs) ∧
          Forall2 (view_of_entry r (name usr)) ms vs.
Proof.
  induction ms as [|e ms IH]; intros acc Hall; simpl.
  - exists []. rewrite app_nil_r. split; [reflexivity|constructor].
  - apply Forall_cons in Hall as [[cn Hcn] Hall].
    destruct (Movies_visitor_view r usr e acc cn Hcn) as (v & -> & Hv).
    destruct (IH (acc ++ [v]) Hall) as (vs & -> & Hvs).
    exists (v :: vs). rewrite <- app_assoc. split; [reflexivity|].
    constructor; assumption.
Qed.

(** C8: User.Movies returns one view per entry of the movie set, in the
    order of the set; each view is the stored entry with the creator's
    name, and its headers are the stored ones exactly when the entry's
    proxy flag is false or the requester is the entry's creator, and nil
    otherwise; the room, and so every stored entry, is left as it was. *)
Theorem User_Movies_redacts_each_entry (r : Room) (u : loc) (usr : User) :
  accounts r !! u = Some usr →
  Forall (fun e => is_Some (Creator_Name r e)) (movies r) →
  ∃ vs, User_Movies u r = Some (r, vs) ∧
        Forall2 (view_of_entry r (name usr)) (movies r) vs.
Proof.
  intros Hu Hall. unfold User_Movies. rewrite Hu. simpl.
  destruct (range_Movies_visitor r usr (movies r) [] Hall) as (vs & -> & Hvs).
  exists vs. split; [reflexivity|exact Hvs].
Qed.

Lemma sample_room_creators :
  Forall (fun e => is_Some (Creator_Name sample_room e)) (movies sample_room).
Proof.
  repeat constructor; eexists; reflexivity.
Defined.

Lemma User_Movies_redacts_each_entry_witness :
  ∃ vs, User_Movies bob_ptr sample_room = Some (sample_room, vs) ∧
        Forall2 (view_of_entry sample_room "bob") (movies sample_room) vs.
Proof.
  apply (User_Movies_redacts_each_entry sample_room bob_ptr bob).
  - reflexivity.
  - exact sample_room_creators.
Defined.

(** On the sample room bob gets alice's proxied movie without headers
    and alice gets it with them. *)
Example User_Movies_sample :
  (∃ va vb, User_Movies bob_ptr sample_room = Some (sample_room, [va; vb]) ∧
            Headers (mi_Base va) = None) ∧
  (∃ va vb, User_Movies alice_ptr sample_room = Some (sample_room, [va; vb]) ∧
            Headers (mi_Base va) = sample_headers).
Proof.
  split; eexists _, _; split; vm_compute; reflexivity.
Qed.

(** ** Pull keys in views *)

Lemma Forall2_view_pull_keys (r : Room) (requester : string)
  (ms : list Movie) (vs : list MovieInfo) :
  Forall2 (view_of_entry r requester) ms vs →
  map mi_PullKey vs = map PullKey ms.
Proof.
  induction 1 as [|e v ms vs Hv _ IH]; simpl; [reflexivity|].
  destruct Hv as (cn & _ & _ & _ & _ & _ & _ & _ & _ & Hkey & _).
  rewrite Hkey, IH. reflexivity.
Qed.

(** C10: the views of User.Movie and of User.Movies carry the pull key
    of the stored entry as it is, whoever asks and whatever the proxy
    flag says. *)
Theorem views_carry_stored_pull_key (r : Room) (u : loc) (usr : User) :
  accounts r !! u = Some usr →
  (∀ id p m cn,
     GetMovie (movies r) id = inl (p, m) →
     Creator_Name r m = Some cn →
     ∃ r' v, User_Movie u id r = Some (r', inl v) ∧
             pb_PullKey v = PullKey m) ∧
  (Forall (fun e => is_Some (Creator_Name r e)) (movies r) →
   ∃ vs, User_Movies u r = Some (r, vs) ∧
         map mi_PullKey vs = map PullKey (movies r)).
Proof.
  intros Hu. split.
  - intros id p m cn Hget Hcn.
    rewrite (User_Movie_found r u id usr p m cn Hu Hget Hcn).
    eexists _, _. split; reflexivity.
  - intros Hall.
    destruct (range_Movies_visitor r usr (movies r) [] Hall) as (vs & Hr & Hvs).
    exists vs. split.
    + unfold User_Movies. rewrite Hu. simpl. rewrite Hr. reflexivity.
    + eapply Forall2_view_pull_keys. exact Hvs.
Qed.

Lemma views_carry_stored_pull_key_witness :
  (∃ r' v, User_Movie alice_ptr 2 sample_room = Some (r', inl v) ∧
           pb_PullKey v = "key-b") ∧
  (∃ vs, User_Movies alice_ptr sample_room = Some (sample_room, vs) ∧
         map mi_PullKey vs = [""; "key-b"]).
Proof.
  destruct (views_carry_stored_pull_key sample_room alice_ptr alice eq_refl)
    as [Hone Hall].
  split.
  - apply (Hone 2 1%nat movie_b "bob"); reflexivity.
  - apply Hall. exact sample_room_creators.
Defined.

(** ** Editing a movie *)

Lemma EditMovie_refused_spec (r : Room) (u : loc) (usr : User) (m : Movie)
  (cn : string) :
  Creator_Name r m = Some cn →
  EditMovie_refused r u usr m =
    Some (negb (IsAdmin usr) && negb (IsRoot r u)
          && negb (String.eqb cn (name usr))).
Proof.
  intros Hcn. unfold EditMovie_refused.
  destruct (negb (IsAdmin usr) && negb (IsRoot r u)); [|reflexivity].
  rewrite Hcn. reflexivity.
Qed.

(** What a permitted edit leaves behind. *)
Lemma User_EditMovie_permitted (r : Room) (u : loc) (id : Z)
  (movie : BaseMovieInfo) (usr : User) (p : nat) (m : Movie) :
  accounts r !! u = Some usr →
  GetMovie (movies r) id = inl (p, m) →
  EditMovie_refused r u usr m = Some false →
  User_EditMovie u id movie r =
    Some (store_movie
            (set_rtmpa r
               (fst (EditMovie_switch (Base m) movie (rtmpa r)
                       (set_Base m movie))))
            p
            (snd (EditMovie_switch (Base m) movie (rtmpa r)
                    (set_Base m movie))),
          None).
Proof.
  intros Hu Hget Hperm. unfold User_EditMovie. rewrite Hu. simpl.
  rewrite Hget, Hperm. simpl.
  destruct (EditMovie_switch (Base m) movie (rtmpa r) (set_Base m movie)).
  reflexivity.
Qed.

(** C7: on an existing entry, User.EditMovie returns the permission
    error and leaves the room, and so the entry, unchanged when the
    requester is not an admin, is not the room's root account and does
    not bear the name of the entry's creator; when the requester is any
    of the three, the edit is let through and returns no error. *)
Theorem EditMovie_permission (r : Room) (u : loc) (id : Z)
  (movie : BaseMovieInfo) (usr : User) (p : nat) (m : Movie) (cn : string) :
  accounts r !! u = Some usr →
  GetMovie (movies r) id = inl (p, m) →
  Creator_Name r m = Some cn →
  (IsAdmin usr = false → rootUser r ≠ Some u → cn ≠ name usr →
     User_EditMovie u id movie r = Some (r, Some ErrNotCreator)) ∧
  (IsAdmin usr = true ∨ rootUser r = Some u ∨ cn = name usr →
     ∃ r', User_EditMovie u id movie r = Some (r', None)).
Proof.
  intros Hu Hget Hcn. split.
  - intros Hadmin Hroot Hname.
    unfold User_EditMovie. rewrite Hu. simpl. rewrite Hget.
    rewrite (EditMovie_refused_spec r u usr m cn Hcn). simpl.
    rewrite Hadmin. unfold IsRoot. rewrite bool_decide_eq_false_2 by exact Hroot.
    destruct (String.eqb_spec cn (name usr)); [contradiction|reflexivity].
  - intros Hperm. eexists.
    apply (User_EditMovie_permitted r u id movie usr p m); [exact Hu|exact Hget|].
    rewrite (EditMovie_refused_spec r u usr m cn Hcn). f_equal.
    destruct Hperm as [Hadmin|[Hroot|Hname]].
    + rewrite Hadmin. reflexivity.
    + unfold IsRoot. rewrite bool_decide_eq_true_2 by exact Hroot.
      destruct (IsAdmin usr); reflexivity.
    + subst cn. rewrite String.eqb_refl.
      destruct (IsAdmin usr), (IsRoot r u); reflexivity.
Qed.

Lemma EditMovie_permission_witness :
  User_EditMovie bob_ptr 1 edit_b sample_room
    = Some (sample_room, Some ErrNotCreator) ∧
  (∃ r', User_EditMovie bob_ptr 2 edit_b sample_room = Some (r', None)) ∧
  (∃ r', User_EditMovie carol_ptr 1 edit_b sample_room = Some (r', None)) ∧
  (∃ r', User_EditMovie alice_ptr 2 edit_b sample_room = Some (r', None)).
Proof.
  split; [|split; [|split]].
  - apply (EditMovie_permission sample_room bob_ptr 1 edit_b bob 0%nat
             movie_a "alice"); try reflexivity; discriminate.
  - apply (EditMovie_permission sample_room bob_ptr 2 edit_b bob 1%nat
             movie_b "bob"); try reflexivity. right. right. reflexivity.
  - apply (EditMovie_permission sample_room carol_ptr 1 edit_b carol 0%nat
             movie_a "alice"); try reflexivity. left. reflexivity.
  - apply (EditMovie_permission sample_room alice_ptr 2 edit_b alice 1%nat
             movie_b "bob"); try reflexivity. right. left. reflexivity.
Defined.

(** ** Pull keys and the live-source flag *)

(** C4 as stated does not hold.  An edit by the creator that keeps the
    live-source flag true and turns the proxy flag off clears the pull
    key; and an edit that turns the live-source flag on leaves the pull
    key empty. *)
Lemma EditMovie_breaks_pull_key_sync :
  (RtmpSource (Base movie_b) = true ∧ PullKey movie_b = "key-b" ∧
   RtmpSource edit_b = true ∧
   ∃ r' m', User_EditMovie bob_ptr 2 edit_b sample_room = Some (r', None) ∧
            GetMovie (movies r') 2 = inl (1%nat, m') ∧
            RtmpSource (Base m') = true ∧ PullKey m' = "") ∧
  (RtmpSource (Base movie_a) = false ∧ PullKey movie_a = "" ∧
   ∃ r' m', User_EditMovie alice_ptr 1
              (mkBaseMovieInfo "rtmp://x/a" "A" true true true "flv" None)
              sample_room = Some (r', None) ∧
            GetMovie (movies r') 1 = inl (0%nat, m') ∧
            RtmpSource (Base m') = true ∧ PullKey m' = "").
Proof.
  split.
  - do 3 (split; [reflexivity|]).
    eexists _, _. repeat split; vm_compute; reflexivity.
  - do 2 (split; [reflexivity|]).
    eexists _, _. repeat split; vm_compute; reflexivity.
Qed.

Lemma EditMovie_switch_spec (pre movie : BaseMovieInfo) (cs : gset string)
  (m : Movie) :
  let cleared :=
    (RtmpSource pre && negb (RtmpSource movie))
    || (Proxy pre && negb (Proxy movie)) in
  snd (EditMovie_switch pre movie cs m)
    = (if cleared then set_PullKey m "" else m) ∧
  fst (EditMovie_switch pre movie cs m)
    = (if RtmpSource pre && negb (RtmpSource movie)
       then DelChannel cs (PullKey m) else cs).
Proof.
  unfold EditMovie_switch.
  destruct (RtmpSource pre && negb (RtmpSource movie)); simpl;
    [split; reflexivity|].
  destruct (Proxy pre && negb (Proxy movie)); simpl; split; reflexivity.
Qed.

(** C4 (amended): a successful User.EditMovie replaces the base info of
    the entry and keeps its id; it clears the pull key exactly when the
    live-source flag goes from true to false or the proxy flag goes from
    true to false, and leaves the pull key as it was otherwise.  So an
    edit that turns the live-source flag off clears the pull key and
    releases its channel; an edit that leaves the flag true clears the
    pull key only when it turns the proxy flag off; and an entry whose
    pull key is non-empty only if its live-source flag is true is still
    such an entry after the edit. *)
Theorem EditMovie_pull_key (r r' : Room) (u : loc) (id : Z)
  (movie : BaseMovieInfo) (p : nat) (m : Movie) :
  GetMovie (movies r) id = inl (p, m) →
  User_EditMovie u id movie r = Some (r', None) →
  ∃ m', GetMovie (movies r') id = inl (p, m') ∧
        Id m' = Id m ∧ Base m' = movie ∧
        PullKey m' =
          (if (RtmpSource (Base m) && negb (RtmpSource movie))
              || (Proxy (Base m) && negb (Proxy movie))
           then "" else PullKey m) ∧
        (RtmpSource (Base m) = true → RtmpSource movie = false →
           PullKey m' = "" ∧ rtmpa r' = DelChannel (rtmpa r) (PullKey m)) ∧
        (RtmpSource (Base m) = true → RtmpSource movie = true →
           PullKey m' =
             (if Proxy (Base m) && negb (Proxy movie) then ""
              else PullKey m)) ∧
        ((PullKey m ≠ "" → RtmpSource (Base m) = true) →
           PullKey m' ≠ "" → RtmpSource (Base m') = true).
Proof.
  intros Hget Hedit. unfold User_EditMovie in Hedit.
  destruct (accounts r !! u) as [usr|]; [|discriminate]. simpl in Hedit.
  rewrite Hget in Hedit.
  destruct (EditMovie_refused r u usr m) as [[|]|]; try discriminate.
  simpl in Hedit.
  pose proof (EditMovie_switch_spec (Base m) movie (rtmpa r) (set_Base m movie))
    as [Hm Hcs].
  destruct (EditMovie_switch (Base m) movie (rtmpa r) (set_Base m movie))
    as [cs m'] eqn:Hsw.
  simpl in Hm, Hcs. injection Hedit as <-.
  exists m'. simpl.
  assert (Hid : Id m' = Id m).
  { rewrite Hm. destruct (_ || _); reflexivity. }
  assert (Hbase : Base m' = movie).
  { rewrite Hm. destruct (_ || _); reflexivity. }
  assert (Hkey : PullKey m' =
            (if (RtmpSource (Base m) && negb (RtmpSource movie))
                || (Proxy (Base m) && negb (Proxy movie))
             then "" else PullKey m)).
  { rewrite Hm. destruct (_ || _); reflexivity. }
  split; [apply (GetMovie_store _ _ _ m); assumption|].
  split; [exact Hid|]. split; [exact Hbase|]. split; [exact Hkey|].
  split; [|split].
  - intros Hpre Hnew. rewrite Hkey, Hcs, Hpre, Hnew. simpl.
    split; reflexivity.
  - intros Hpre Hnew. rewrite Hkey, Hpre, Hnew. reflexivity.
  - intros Hinv Hne. rewrite Hbase. rewrite Hkey in Hne.
    destruct (RtmpSource movie) eqn:Hnew; [reflexivity|].
    destruct (RtmpSource (Base m)) eqn:Hpre; simpl in Hne.
    + contradiction.
    + destruct (Proxy (Base m) && negb (Proxy movie)); [contradiction|].
      apply Hinv in Hne. discriminate.
Qed.

Lemma EditMovie_pull_key_witness :
  ∃ r' m', User_EditMovie bob_ptr 2 edit_b_off sample_room = Some (r', None) ∧
           GetMovie (movies r') 2 = inl (1%nat, m') ∧
           Base m' = edit_b_off ∧ PullKey m' = "" ∧
           rtmpa r' = DelChannel (rtmpa sample_room) "key-b".
Proof.
  eexists.
  assert (Hedit : User_EditMovie bob_ptr 2 edit_b_off sample_room
                  = Some (store_movie
                            (set_rtmpa sample_room
                               (DelChannel (rtmpa sample_room) "key-b"))
                            1 (set_PullKey (set_Base movie_b edit_b_off) ""),
                          None)) by reflexivity.
  destruct (EditMovie_pull_key sample_room _ bob_ptr 2 edit_b_off 1%nat movie_b
              eq_refl Hedit)
    as (m' & Hget & _ & Hbase & _ & Hoff & _ & _).
  exists m'. split; [exact Hedit|]. split; [exact Hget|].
  split; [exact Hbase|]. apply Hoff; reflexivity.
Defined.

(** ** Movie ids *)

Lemma User_Movie_mid (u : loc) (id : Z) (r r' : Room)
  (res : pb_MovieInfo + error) :
  User_Movie u id r = Some (r', res) → mid r' = mid r.
Proof.
  unfold User_Movie. destruct (accounts r !! u); [|discriminate]. simpl.
  destruct (GetMovie (movies r) id) as [[p m]|err].
  - destruct (Creator_Name r m); [|discriminate]. simpl.
    destruct (_ && _); intros [= <- _]; reflexivity.
  - intros [= <- _]. reflexivity.
Qed.

Lemma User_Movies_room (u : loc) (r r' : Room) (vs : list MovieInfo) :
  User_Movies u r = Some (r', vs) → r' = r.
Proof.
  unfold User_Movies. destruct (accounts r !! u); [|discriminate]. simpl.
  destruct (range_ _ _ _); [|discriminate]. simpl. by intros [= <- _].
Qed.

Lemma User_EditMovie_mid (u : loc) (id : Z) (movie : BaseMovieInfo)
  (r r' : Room) (res : option error) :
  User_EditMovie u id movie r = Some (r', res) → mid r' = mid r.
Proof.
  unfold User_EditMovie. destruct (accounts r !! u) as [usr|]; [|discriminate].
  simpl. destruct (GetMovie (movies r) id) as [[p m]|err].
  - destruct (EditMovie_refused r u usr m) as [[|]|]; simpl; try discriminate.
    + intros [= <- _]. reflexivity.
    + destruct (EditMovie_switch _ _ _ _). intros [= <- _]. reflexivity.
  - intros [= <- _]. reflexivity.
Qed.

Section RunProofs.

Variable validate : BaseMovieInfo -> option error.

(** A new-movie call moves the counter to its successor and, when it
    succeeds, the new movie bears the new value of the counter. *)
Lemma User_NewMovieWithBaseMovie_id (u : loc) (baseMovie : BaseMovieInfo)
  (now : Z) (r r' : Room) (res : Movie + error) :
  User_NewMovieWithBaseMovie validate u baseMovie [] now r = Some (r', res) →
  mid r' = wrap64 (mid r + 1) ∧
  ∀ m, res = inl m → Id m = mid r' ∧ Creator m = Some u.
Proof.
  unfold User_NewMovieWithBaseMovie.
  destruct (accounts r !! u); [|discriminate]. simpl.
  intros [= <- <-]. split; [reflexivity|].
  intros m. unfold NewMovieWithBaseMovie.
  destruct (validate baseMovie); [discriminate|].
  intros [= <-]. simpl. split; reflexivity.
Qed.

(** One call either assigns no id and leaves the counter, or is a
    new-movie call, which moves the counter up by one and assigns at
    most its new value. *)
Lemma room_step_counter (op : RoomOp) (r r' : Room) (ids : list Z) :
  room_step validate op r = Some (r', ids) →
  0 <= mid r → mid r + count_new [op] < uint64_modulus →
  mid r' = mid r + count_new [op] ∧
  (ids = [] ∨ (ids = [mid r'] ∧ count_new [op] = 1)).
Proof.
  intros Hstep H0 Hroom.
  destruct op as [u b now|u id|u|u id b|id]; simpl in *.
  - destruct (User_NewMovieWithBaseMovie validate u b [] now r)
      as [[r1 res]|] eqn:Hnew; [|discriminate]. simpl in Hstep.
    destruct (User_NewMovieWithBaseMovie_id u b now r r1 res Hnew)
      as [Hmid Hid].
    rewrite wrap64_small in Hmid by lia.
    destruct res as [m|err]; injection Hstep as <- <-; simpl.
    + split; [lia|]. right. destruct (Hid m eq_refl) as [-> _].
      split; [reflexivity|lia].
    + split; [lia|]. left. reflexivity.
  - destruct (User_Movie u id r) as [[r1 res]|] eqn:Hcall; [|discriminate].
    simpl in Hstep. injection Hstep as <- <-.
    rewrite (User_Movie_mid u id r r1 res Hcall). split; [lia|by left].
  - destruct (User_Movies u r) as [[r1 res]|] eqn:Hcall; [|discriminate].
    simpl in Hstep. injection Hstep as <- <-.
    rewrite (User_Movies_room u r r1 res Hcall). split; [lia|by left].
  - destruct (User_EditMovie u id b r) as [[r1 res]|] eqn:Hcall;
      [|discriminate].
    simpl in Hstep. injection Hstep as <- <-.
    rewrite (User_EditMovie_mid u id b r r1 res Hcall). split; [lia|by left].
  - injection Hstep as <- <-. simpl. split; [lia|by left].
Qed.

Lemma count_new_cons (op : RoomOp) (ops : list RoomOp) :
  count_new (op :: ops) = count_new [op] + count_new ops.
Proof. destruct op; simpl; lia. Qed.

Lemma count_new_nonneg (ops : list RoomOp) : 0 <= count_new ops.
Proof. induction ops as [|op ops IH]; simpl; [lia|]. destruct op; lia. Qed.

Lemma assigned_ids_bounds (ops : list RoomOp) :
  ∀ r : Room,
    0 <= mid r → mid r + count_new ops < uint64_modulus →
    Forall (fun i => mid r < i) (assigned_ids validate ops r) ∧
    StronglySorted Z.lt (assigned_ids validate ops r).
Proof.
  induction ops as [|op ops IH]; intros r H0 Hroom; simpl.
  - split; constructor.
  - rewrite count_new_cons in Hroom.
    pose proof (count_new_nonneg ops) as Hn.
    pose proof (count_new_nonneg [op]) as Hn1.
    destruct (room_step validate op r) as [[r1 ids]|] eqn:Hstep;
      [|split; constructor].
    destruct (room_step_counter op r r1 ids Hstep H0) as [Hmid Hids];
      [lia|].
    destruct (IH r1) as [Hall Hsorted]; [lia|lia|].
    destruct Hids as [->|[-> Hone]]; simpl.
    + split; [|exact Hsorted].
      eapply Forall_impl; [exact Hall|]. simpl. intros i Hi. lia.
    + split.
      * constructor; [lia|].
        eapply Forall_impl; [exact Hall|]. simpl. intros i Hi. lia.
      * constructor; [exact Hsorted|exact Hall].
Qed.

End RunProofs.

(** C6 as stated does not hold for every room: the counter is a 64-bit
    integer, and in a room whose counter stands at [2^64 - 2] the second
    new movie gets the id 0, which is smaller than the id of the first. *)
Lemma movie_id_wraps_around :
  assigned_ids no_validation
    [OpNewMovie alice_ptr (Base movie_a) 300;
     OpNewMovie bob_ptr (Base movie_a) 301]
    (set_mid sample_room (uint64_max - 1))
  = [uint64_max; 0].
Proof. vm_compute. reflexivity. Qed.

(** C6 (amended): along every run of calls on a room (new movie, get,
    list, edit, delete) in which the 64-bit counter of the room does not
    wrap around, the ids of the movies the successful new-movie calls
    create are strictly increasing in call order, each greater than every
    id assigned before it and than the counter at the start of the run;
    deletions in between do not make an id available again. *)
Theorem movie_ids_strictly_increasing
  (validate : BaseMovieInfo -> option error) (ops : list RoomOp) (r : Room) :
  0 <= mid r → mid r + count_new ops < uint64_modulus →
  StronglySorted Z.lt (assigned_ids validate ops r) ∧
  Forall (fun i => mid r < i) (assigned_ids validate ops r).
Proof.
  intros H0 Hroom.
  destruct (assigned_ids_bounds validate ops r H0 Hroom) as [Hall Hs].
  split; assumption.
Qed.

Lemma movie_ids_strictly_increasing_witness :
  assigned_ids no_validation sample_run sample_room = [3; 4; 5] ∧
  StronglySorted Z.lt (assigned_ids no_validation sample_run sample_room) ∧
  Forall (fun i => 2 < i) (assigned_ids no_validation sample_run sample_room).
Proof.
  split; [vm_compute; reflexivity|].
  apply (movie_ids_strictly_increasing no_validation sample_run sample_room).
  - vm_compute. discriminate.
  - vm_compute. reflexivity.
Defined.

(** * Further properties of accounts *)

Lemma wrap64_succ_differs (v : Z) :
  0 <= v < uint64_modulus → wrap64 (v + 1) ≠ v.
Proof.
  intros Hv. unfold wrap64.
  destruct (Z.eq_dec (v + 1) uint64_modulus) as [Heq|Hne].
  - rewrite Heq, Z.mod_same by (unfold uint64_modulus; lia).
    unfold uint64_modulus in *. lia.
  - rewrite Z.mod_small by lia. lia.
Qed.

(** X1: a successful SetPassword makes the version held before stale:
    when the hashing primitive succeeds on an account whose version is a
    64-bit value, no error is returned, the hash is stored, the version
    is the successor modulo 2^64 and so differs from the old one, and
    name, admin flag and last activity are as before. *)
Theorem SetPassword_makes_old_version_stale
  (gen : string -> Z -> string + string) (u : User) (pw h : string) :
  0 <= Version u < uint64_modulus →
  gen pw DefaultCost = inl h →
  snd (SetPassword gen u pw) = None ∧
  password (fst (SetPassword gen u pw)) = h ∧
  Version (fst (SetPassword gen u pw)) = wrap64 (Version u + 1) ∧
  CheckVersion (fst (SetPassword gen u pw)) (Version u) = false ∧
  name (fst (SetPassword gen u pw)) = name u ∧
  admin (fst (SetPassword gen u pw)) = admin u ∧
  lastAct (fst (SetPassword gen u pw)) = lastAct u.
Proof.
  intros Hv Hgen.
  rewrite (SetPassword_hashes_any_password gen u pw h Hgen). simpl.
  repeat split.
  unfold CheckVersion, Version in *. simpl. apply Z.eqb_neq.
  apply wrap64_succ_differs. exact Hv.
Qed.

Lemma SetPassword_makes_old_version_stale_witness :
  snd (SetPassword sample_hash (set_version alice uint64_max) "new") = None ∧
  password (fst (SetPassword sample_hash (set_version alice uint64_max) "new"))
    = "$2a$new" ∧
  Version (fst (SetPassword sample_hash (set_version alice uint64_max) "new"))
    = wrap64 (Version (set_version alice uint64_max) + 1) ∧
  CheckVersion (fst (SetPassword sample_hash (set_version alice uint64_max) "new"))
    (Version (set_version alice uint64_max)) = false ∧
  name (fst (SetPassword sample_hash (set_version alice uint64_max) "new"))
    = name (set_version alice uint64_max) ∧
  admin (fst (SetPassword sample_hash (set_version alice uint64_max) "new"))
    = admin (set_version alice uint64_max) ∧
  lastAct (fst (SetPassword sample_hash (set_version alice uint64_max) "new"))
    = lastAct (set_version alice uint64_max).
Proof.
  apply (SetPassword_makes_old_version_stale sample_hash
           (set_version alice uint64_max) "new" "$2a$new").
  - vm_compute. split; [discriminate|reflexivity].
  - reflexivity.
Defined.

(** X2: SetPassword returns an error exactly when the hashing primitive
    fails, the error is the primitive's, and the account is then left as
    it was: password, version and every other field. *)
Theorem SetPassword_fails_only_with_hashing
  (gen : string -> Z -> string + string) (u : User) (pw : string) :
  (snd (SetPassword gen u pw) = None ↔ ∃ h, gen pw DefaultCost = inl h) ∧
  ∀ e, snd (SetPassword gen u pw) = Some e →
       gen pw DefaultCost = inr match e with ErrBcrypt msg => msg | _ => "" end ∧
       (∃ msg, e = ErrBcrypt msg) ∧
       fst (SetPassword gen u pw) = u.
Proof.
  unfold SetPassword. destruct (gen pw DefaultCost) as [h|msg]; simpl.
  - split; [split; [intros _; by exists h|reflexivity]|]. discriminate.
  - split; [split; [discriminate|intros [h Hh]; discriminate]|].
    intros e [= <-]. repeat split. by exists msg.
Qed.

Lemma SetPassword_fails_only_with_hashing_witness :
  snd (SetPassword failing_hash alice "new") = Some (ErrBcrypt "bcrypt: failure") ∧
  failing_hash "new" DefaultCost = inr "bcrypt: failure" ∧
  (∃ msg, ErrBcrypt "bcrypt: failure" = ErrBcrypt msg) ∧
  fst (SetPassword failing_hash alice "new") = alice.
Proof.
  split; [reflexivity|].
  destruct (SetPassword_fails_only_with_hashing failing_hash alice "new")
    as [_ Herr].
  apply (Herr (ErrBcrypt "bcrypt: failure")). reflexivity.
Defined.

(** X3: on an account whose version is a 64-bit value, [n] increments
    in a row leave the version at the old one plus [n] modulo 2^64; so
    the old version is stale after any number of increments below 2^64,
    and current again after exactly 2^64 of them. *)
Theorem updateVersion_n_closed_form (n : nat) (u : User) :
  0 <= Version u < uint64_modulus →
  Version (updateVersion_n n u) = wrap64 (Version u + Z.of_nat n) ∧
  (0 < Z.of_nat n < uint64_modulus →
   CheckVersion (updateVersion_n n u) (Version u) = false) ∧
  (Z.of_nat n = uint64_modulus →
   CheckVersion (updateVersion_n n u) (Version u) = true).
Proof.
  intros Hv.
  assert (Hgen : ∀ (k : nat) (w : User),
            0 <= Version w < uint64_modulus →
            Version (updateVersion_n k w) = wrap64 (Version w + Z.of_nat k)).
  { induction k as [|k IH]; intros w Hw.
    - simpl. rewrite Z.add_0_r. symmetry. apply wrap64_small. exact Hw.
    - simpl updateVersion_n. rewrite IH.
      + unfold Version, updateVersion. cbn [fst version set_version].
        unfold wrap64. rewrite Zplus_mod_idemp_l. f_equal. lia.
      + unfold Version, updateVersion. cbn [fst version set_version].
        unfold wrap64. apply Z.mod_pos_bound. reflexivity. }
  split; [apply Hgen; exact Hv|]. split.
  - intros Hn. unfold CheckVersion. rewrite (Hgen n u Hv).
    apply Z.eqb_neq. unfold wrap64, uint64_modulus in *.
    change (2 ^ 64) with 18446744073709551616 in *.
    intros Heq. pose proof (Z.div_mod (Version u + Z.of_nat n)
                              18446744073709551616) as Hdm.
    rewrite Heq in Hdm. lia.
  - intros Hn. unfold CheckVersion. rewrite (Hgen n u Hv).
    apply Z.eqb_eq. rewrite Hn. unfold wrap64.
    rewrite Z.add_mod, Z.mod_same, Z.add_0_r, Z.mod_mod
      by (unfold uint64_modulus; lia).
    apply Z.mod_small. exact Hv.
Qed.

Lemma updateVersion_n_closed_form_witness :
  Version (updateVersion_n 3 alice) = wrap64 (Version alice + Z.of_nat 3) ∧
  (0 < Z.of_nat 3 < uint64_modulus →
   CheckVersion (updateVersion_n 3 alice) (Version alice) = false) ∧
  (Z.of_nat 3 = uint64_modulus →
   CheckVersion (updateVersion_n 3 alice) (Version alice) = true).
Proof.
  apply (updateVersion_n_closed_form 3 alice).
  vm_compute. split; [discriminate|reflexivity].
Defined.

Lemma last_cons_default (l : list Z) (x d d' : Z) :
  List.last (x :: l) d = List.last (x :: l) d'.
Proof.
  revert x. induction l as [|y l IH]; intros x; [reflexivity|].
  change (List.last (y :: l) d = List.last (y :: l) d'). apply IH.
Qed.

Lemma UpdateLastAct_run_spec (times : list Z) :
  ∀ u : User,
    snd (UpdateLastAct_run u times) = removelast (lastAct u :: times) ∧
    LastAct (fst (UpdateLastAct_run u times)) = List.last times (lastAct u) ∧
    set_lastAct (fst (UpdateLastAct_run u times)) (lastAct u) = u.
Proof.
  induction times as [|t times IH]; intros u.
  - simpl. repeat split. destruct u; reflexivity.
  - cbn [UpdateLastAct_run UpdateLastAct].
    destruct (IH (set_lastAct u t)) as (Hold & Hlast & Hrest).
    destruct (UpdateLastAct_run (set_lastAct u t) times) as [u2 olds].
    cbn [fst snd] in *. split; [|split].
    + rewrite Hold. reflexivity.
    + rewrite Hlast. destruct times as [|z times]; [reflexivity|].
      change (List.last (t :: z :: times) (lastAct u))
        with (List.last (z :: times) (lastAct u)).
      apply last_cons_default.
    + destruct u, u2; unfold set_lastAct in *; simpl in *. congruence.
Qed.

(** X4: in a series of UpdateLastAct calls every call returns the time
    stored by the call before it (the first one the time stored at the
    start), the time of the last call is what LastAct reads afterwards,
    and no other field of the account changes. *)
Theorem UpdateLastAct_returns_previous_time (u : User) (times : list Z) :
  snd (UpdateLastAct_run u times) = removelast (lastAct u :: times) ∧
  LastAct (fst (UpdateLastAct_run u times)) = List.last times (lastAct u) ∧
  name (fst (UpdateLastAct_run u times)) = name u ∧
  password (fst (UpdateLastAct_run u times)) = password u ∧
  Version (fst (UpdateLastAct_run u times)) = Version u ∧
  admin (fst (UpdateLastAct_run u times)) = admin u.
Proof.
  destruct (UpdateLastAct_run_spec times u) as (Hold & Hlast & Hrest).
  split; [exact Hold|]. split; [exact Hlast|].
  rewrite <- Hrest at 2 4 6 8. repeat split.
Qed.

Lemma NewUser_inl_bounds
  (gen : string -> Z -> string + string) (id pw : string)
  (conf : list UserConf) (now rnd : Z) (u : User) :
  NewUser gen id pw conf now rnd = inl u →
  (1 <= String.length id <= 32)%nat ∧
  (1 <= String.length pw <= 32)%nat ∧
  ∃ h, gen pw DefaultCost = inl h.
Proof.
  unfold NewUser.
  destruct (String.eqb id "") eqn:Hid; [discriminate|].
  destruct (32 <? String.length id)%nat eqn:Hidlen; [discriminate|].
  destruct (String.eqb pw "") eqn:Hpw; [discriminate|].
  destruct (32 <? String.length pw)%nat eqn:Hpwlen; [discriminate|].
  destruct (gen pw DefaultCost) as [h|msg]; [|discriminate].
  intros _. apply string_eqb_empty in Hid, Hpw.
  apply Nat.ltb_ge in Hidlen, Hpwlen.
  split; [lia|]. split; [lia|]. by exists h.
Qed.

(** X5: NewUser returns an account only for a name of 1 to 32 bytes and
    a password of 1 to 32 bytes on which the hashing primitive
    succeeded; in every other case it returns an error. *)
Theorem NewUser_success_needs_valid_input
  (gen : string -> Z -> string + string) (id pw : string)
  (conf : list UserConf) (now rnd : Z) (u : User) :
  NewUser gen id pw conf now rnd = inl u →
  (1 <= String.length id <= 32)%nat ∧
  (1 <= String.length pw <= 32)%nat ∧
  ∃ h, gen pw DefaultCost = inl h.
Proof. apply NewUser_inl_bounds. Qed.

Lemma NewUser_success_needs_valid_input_witness :
  (1 <= String.length "alice" <= 32)%nat ∧
  (1 <= String.length "pw1" <= 32)%nat ∧
  ∃ h, sample_hash "pw1" DefaultCost = inl h.
Proof.
  apply (NewUser_success_needs_valid_input sample_hash "alice" "pw1"
           [WithUserAdmin true] 5 77
           (mkUser "alice" "$2a$pw1" 77 true 5)).
  reflexivity.
Defined.

(** X6: the account NewUser returns never has version 0 when the random
    seed drawn is not 0, whatever the options supply. *)
Theorem NewUser_version_not_zero
  (gen : string -> Z -> string + string) (id pw : string)
  (conf : list UserConf) (now rnd : Z) (u : User) :
  rnd ≠ 0 →
  NewUser gen id pw conf now rnd = inl u →
  Version u ≠ 0.
Proof.
  intros Hrnd. unfold NewUser.
  destruct (String.eqb id ""); [discriminate|].
  destruct (32 <? String.length id)%nat; [discriminate|].
  destruct (String.eqb pw ""); [discriminate|].
  destruct (32 <? String.length pw)%nat; [discriminate|].
  destruct (gen pw DefaultCost) as [h|msg]; [|discriminate].
  destruct (Z.eqb_spec (version (apply_conf conf (mkUser id h 0 false now))) 0)
    as [Hz|Hnz]; intros [= <-]; unfold Version; simpl; assumption.
Qed.

Lemma NewUser_version_not_zero_witness :
  NewUser sample_hash "alice" "pw1" [WithUserVersion 0] 5 77
    = inl (mkUser "alice" "$2a$pw1" 77 false 5) ∧
  Version (mkUser "alice" "$2a$pw1" 77 false 5) ≠ 0.
Proof.
  split; [reflexivity|].
  apply (NewUser_version_not_zero sample_hash "alice" "pw1"
           [WithUserVersion 0] 5 77).
  - discriminate.
  - reflexivity.
Defined.

(** X7: with hashing primitives such that the comparison accepts a
    hash together with the password it was generated from, CheckPassword
    accepts the new password after a successful SetPassword, and accepts
    the password of a new account made by NewUser with options that
    leave the password alone. *)
Theorem CheckPassword_accepts_stored_password
  (gen : string -> Z -> string + string)
  (cmp : string -> string -> option string) :
  (∀ pw h, gen pw DefaultCost = inl h → cmp h pw = None) →
  (∀ u pw, snd (SetPassword gen u pw) = None →
           CheckPassword cmp (fst (SetPassword gen u pw)) pw = true) ∧
  (∀ id pw conf now rnd u,
     Forall (fun c : UserConf => ∀ w, password (c w) = password w) conf →
     NewUser gen id pw conf now rnd = inl u →
     CheckPassword cmp u pw = true).
Proof.
  intros Hcmp. split.
  - intros u pw. unfold SetPassword, CheckPassword.
    destruct (gen pw DefaultCost) as [h|msg] eqn:Hgen; simpl; [|discriminate].
    intros _. rewrite (Hcmp pw h Hgen). reflexivity.
  - intros id pw conf now rnd u Hconf. unfold NewUser.
    destruct (String.eqb id ""); [discriminate|].
    destruct (32 <? String.length id)%nat; [discriminate|].
    destruct (String.eqb pw ""); [discriminate|].
    destruct (32 <? String.length pw)%nat; [discriminate|].
    destruct (gen pw DefaultCost) as [h|msg] eqn:Hgen; [|discriminate].
    assert (Hpw : ∀ w, password (apply_conf conf w) = password w).
    { clear -Hconf. induction Hconf as [|c conf Hc _ IH]; intros w;
        [reflexivity|]. simpl. unfold apply_conf in IH. rewrite IH. apply Hc. }
    intros [= <-]. unfold CheckPassword.
    assert (password
              (if version (apply_conf conf (mkUser id h 0 false now)) =? 0
               then set_version (apply_conf conf (mkUser id h 0 false now)) rnd
               else apply_conf conf (mkUser id h 0 false now)) = h) as ->.
    { destruct (_ =? 0); simpl; rewrite Hpw; reflexivity. }
    rewrite (Hcmp pw h Hgen). reflexivity.
Qed.

Lemma sample_compare_accepts (pw h : string) :
  sample_hash pw DefaultCost = inl h → sample_compare h pw = None.
Proof.
  intros [= <-]. unfold sample_compare. rewrite String.eqb_refl. reflexivity.
Defined.

Lemma CheckPassword_accepts_stored_password_witness :
  CheckPassword sample_compare (fst (SetPassword sample_hash alice "new")) "new"
    = true ∧
  CheckPassword sample_compare (mkUser "dave" "$2a$pw4" 42 true 5) "pw4" = true.
Proof.
  destruct (CheckPassword_accepts_stored_password sample_hash sample_compare
              sample_compare_accepts) as [Hset Hnew].
  split.
  - apply Hset. reflexivity.
  - apply (Hnew "dave" "pw4" [WithUserVersion 42; WithUserAdmin true] 5 77).
    + repeat constructor.
    + reflexivity.
Defined.

Lemma User_CloseHub_clients (u : User) (h : Hub) :
  clients (User_CloseHub u h) = delete (name u) (clients h).
Proof.
  unfold User_CloseHub. destruct (clients h !! name u) eqn:Hc; simpl.
  - reflexivity.
  - symmetry. apply delete_id. exact Hc.
Qed.

(** X8: after CloseHub no client is registered under the account's
    name, the client that was registered is closed, the clients of other
    names stay registered, no client is closed except that one, and a
    second CloseHub changes nothing. *)
Theorem CloseHub_deregisters_and_closes (u : User) (h : Hub) :
  clients (User_CloseHub u h) !! name u = None ∧
  (∀ c, clients h !! name u = Some c → c ∈ closed (User_CloseHub u h)) ∧
  (∀ n, n ≠ name u → clients (User_CloseHub u h) !! n = clients h !! n) ∧
  (∀ c, c ∈ closed (User_CloseHub u h) →
        c ∈ closed h ∨ clients h !! name u = Some c) ∧
  User_CloseHub u (User_CloseHub u h) = User_CloseHub u h.
Proof.
  split; [|split; [|split; [|split]]].
  - rewrite User_CloseHub_clients. apply lookup_delete_eq.
  - intros c Hc. unfold User_CloseHub. rewrite Hc. simpl. set_solver.
  - intros n Hn. rewrite User_CloseHub_clients. by apply lookup_delete_ne.
  - intros c. unfold User_CloseHub.
    destruct (clients h !! name u) as [c0|] eqn:Hc; simpl.
    + intros [->%elem_of_singleton|Hin]%elem_of_union; auto.
    + auto.
  - unfold User_CloseHub at 1.
    rewrite User_CloseHub_clients, lookup_delete_eq. reflexivity.
Qed.

(** * Further properties of the playlist operations *)

(** X9: a look-up or an edit of an id that is not in the movie set
    returns the error of the set and leaves the room as it was, whoever
    asks: the id is looked up before the permission is checked. *)
Theorem unknown_id_changes_nothing (r : Room) (u : loc) (usr : User)
  (id : Z) (movie : BaseMovieInfo) (e : error) :
  accounts r !! u = Some usr →
  GetMovie (movies r) id = inr e →
  User_Movie u id r = Some (r, inr e) ∧
  User_EditMovie u id movie r = Some (r, Some e).
Proof.
  intros Hu Hget. unfold User_Movie, User_EditMovie.
  rewrite Hu. simpl. rewrite Hget. split; reflexivity.
Qed.

Lemma unknown_id_changes_nothing_witness :
  User_Movie carol_ptr 9 sample_room = Some (sample_room, inr ErrMovieNotFound) ∧
  User_EditMovie carol_ptr 9 edit_b sample_room
    = Some (sample_room, Some ErrMovieNotFound).
Proof.
  apply (unknown_id_changes_nothing sample_room carol_ptr carol 9 edit_b
           ErrMovieNotFound); reflexivity.
Defined.

Lemma same_but_headers_refl (m : Movie) : same_but_headers m m.
Proof. unfold same_but_headers. repeat split. by left. Qed.

(** X10: whatever User.Movie returns, the only thing it can have changed
    in the room is the header map of the entry with the id asked for,
    which is then nil: accounts, root account, counter, channels, the
    number and order of the entries, every other entry and every other
    field of that entry are as before. *)
Theorem User_Movie_changes_headers_only (u : loc) (id : Z) (r r' : Room)
  (res : pb_MovieInfo + error) :
  User_Movie u id r = Some (r', res) →
  accounts r' = accounts r ∧ rootUser r' = rootUser r ∧ mid r' = mid r ∧
  rtmpa r' = rtmpa r ∧ length (movies r') = length (movies r) ∧
  ∀ q m, movies r !! q = Some m →
    ∃ m', movies r' !! q = Some m' ∧ same_but_headers m m' ∧
          (Id m ≠ id → m' = m).
Proof.
  unfold User_Movie. destruct (accounts r !! u) as [usr|]; [|discriminate].
  simpl. destruct (GetMovie (movies r) id) as [[p m0]|err] eqn:Hget.
  - destruct (Creator_Name r m0) as [cn|]; [|discriminate]. simpl.
    destruct (_ && _).
    + intros [= <- _]. simpl. repeat split; try reflexivity.
      * apply length_insert.
      * intros q m Hq. destruct (GetMovie_lookup _ _ _ _ Hget) as [Hp Hid].
        destruct (decide (q = p)) as [->|Hne].
        -- rewrite Hp in Hq. injection Hq as <-.
           eexists. split.
           ++ apply list_lookup_insert_eq. by eapply lookup_lt_Some.
           ++ split; [|intros Hn; contradiction].
              unfold same_but_headers. simpl. repeat split. by right.
        -- exists m. split; [|split; [apply same_but_headers_refl|done]].
           rewrite list_lookup_insert_ne by done. exact Hq.
    + intros [= <- _]. repeat split; try reflexivity.
      intros q m Hq. exists m.
      split; [exact Hq|]. split; [apply same_but_headers_refl|done].
  - intros [= <- _]. repeat split; try reflexivity.
    intros q m Hq. exists m.
    split; [exact Hq|]. split; [apply same_but_headers_refl|done].
Qed.

Lemma User_Movie_changes_headers_only_witness :
  ∃ r', User_Movie bob_ptr 1 sample_room
          = Some (r', inl (pb_view movie_a "alice")) ∧
        accounts r' = accounts sample_room ∧
        length (movies r') = length (movies sample_room) ∧
        ∃ m', movies r' !! 1%nat = Some m' ∧ same_but_headers movie_b m' ∧
              (Id movie_b ≠ 1 → m' = movie_b).
Proof.
  eexists. split; [reflexivity|].
  destruct (User_Movie_changes_headers_only bob_ptr 1 sample_room _ _ eq_refl)
    as (Ha & _ & _ & _ & Hlen & Hall).
  split; [exact Ha|]. split; [exact Hlen|].
  apply (Hall 1%nat movie_b). reflexivity.
Defined.

Lemma User_EditMovie_preserves (u : loc) (id : Z) (movie : BaseMovieInfo)
  (r r' : Room) (res : option error) :
  User_EditMovie u id movie r = Some (r', res) →
  accounts r' = accounts r ∧ rootUser r' = rootUser r ∧ mid r' = mid r ∧
  length (movies r') = length (movies r) ∧
  ∀ q m, movies r !! q = Some m →
    ∃ m', movies r' !! q = Some m' ∧ Id m' = Id m ∧
          CreatedAt m' = CreatedAt m ∧ Creator m' = Creator m ∧
          (Id m ≠ id → m' = m).
Proof.
  unfold User_EditMovie. destruct (accounts r !! u) as [usr|]; [|discriminate].
  simpl. destruct (GetMovie (movies r) id) as [[p m0]|err] eqn:Hget.
  - destruct (EditMovie_refused r u usr m0) as [[|]|]; simpl; try discriminate.
    + intros [= <- _]. repeat split; try reflexivity.
      intros q m Hq. exists m. repeat split; done.
    + pose proof (EditMovie_switch_spec (Base m0) movie (rtmpa r)
                    (set_Base m0 movie)) as [Hm _].
      destruct (EditMovie_switch (Base m0) movie (rtmpa r) (set_Base m0 movie))
        as [cs m1]. simpl in Hm.
      intros [= <- _]. simpl. repeat split; try reflexivity.
      * apply length_insert.
      * intros q m Hq. destruct (GetMovie_lookup _ _ _ _ Hget) as [Hp Hid].
        destruct (decide (q = p)) as [->|Hne].
        -- rewrite Hp in Hq. injection Hq as <-.
           exists m1. split.
           ++ apply list_lookup_insert_eq. by eapply lookup_lt_Some.
           ++ rewrite Hm. destruct (_ || _); repeat split; try reflexivity;
                intros Hn; contradiction.
        -- exists m. rewrite list_lookup_insert_ne by done.
           repeat split; done.
  - intros [= <- _]. repeat split; try reflexivity.
    intros q m Hq. exists m. repeat split; done.
Qed.

(** X11: whatever User.EditMovie returns, accounts, root account and
    counter are as before, the movie set has the same entries in the
    same order, every entry keeps its id, creation time and creator, and
    every entry with another id is untouched. *)
Theorem User_EditMovie_frame (u : loc) (id : Z) (movie : BaseMovieInfo)
  (r r' : Room) (res : option error) :
  User_EditMovie u id movie r = Some (r', res) →
  accounts r' = accounts r ∧ rootUser r' = rootUser r ∧ mid r' = mid r ∧
  length (movies r') = length (movies r) ∧
  ∀ q m, movies r !! q = Some m →
    ∃ m', movies r' !! q = Some m' ∧ Id m' = Id m ∧
          CreatedAt m' = CreatedAt m ∧ Creator m' = Creator m ∧
          (Id m ≠ id → m' = m).
Proof. apply User_EditMovie_preserves. Qed.

Lemma User_EditMovie_frame_witness :
  ∃ r', User_EditMovie bob_ptr 2 edit_b_off sample_room = Some (r', None) ∧
        accounts r' = accounts sample_room ∧ mid r' = mid sample_room ∧
        ∃ m', movies r' !! 0%nat = Some m' ∧ Id m' = Id movie_a ∧
              CreatedAt m' = CreatedAt movie_a ∧
              Creator m' = Creator movie_a ∧
              (Id movie_a ≠ 2 → m' = movie_a).
Proof.
  eexists. split; [reflexivity|].
  destruct (User_EditMovie_frame bob_ptr 2 edit_b_off sample_room _ _ eq_refl)
    as (Ha & _ & Hmid & _ & Hall).
  split; [exact Ha|]. split; [exact Hmid|].
  apply (Hall 0%nat movie_a). reflexivity.
Defined.

Lemma set_Base_same (m : Movie) : set_Base m (Base m) = m.
Proof. destruct m; reflexivity. Qed.

Lemma store_movie_same (r : Room) (p : nat) (m : Movie) :
  movies r !! p = Some m →
  store_movie (set_rtmpa r (rtmpa r)) p m = r.
Proof.
  intros Hp. unfold store_movie, set_movies, set_rtmpa. simpl.
  rewrite list_insert_id by exact Hp. destruct r; reflexivity.
Qed.

Lemma EditMovie_switch_no_change (movie : BaseMovieInfo) (cs : gset string)
  (m : Movie) :
  EditMovie_switch movie movie cs m = (cs, m).
Proof.
  unfold EditMovie_switch.
  destruct (RtmpSource movie), (Proxy movie); reflexivity.
Qed.

(** X12: a successful edit is idempotent: the same account editing the
    same entry with the same base info again succeeds again and leaves
    the room exactly as the first edit left it. *)
Theorem User_EditMovie_idempotent (u : loc) (id : Z) (movie : BaseMovieInfo)
  (r r' : Room) :
  User_EditMovie u id movie r = Some (r', None) →
  User_EditMovie u id movie r' = Some (r', None).
Proof.
  intros Hedit.
  destruct (User_EditMovie_preserves u id movie r r' None Hedit)
    as (Hacc & Hroot & _ & _ & Hall).
  unfold User_EditMovie in Hedit.
  destruct (accounts r !! u) as [usr|] eqn:Hu; [|discriminate].
  simpl in Hedit.
  destruct (GetMovie (movies r) id) as [[p m]|err] eqn:Hget; [|discriminate].
  destruct (EditMovie_refused r u usr m) as [[|]|] eqn:Hperm;
    simpl in Hedit; try discriminate.
  pose proof (EditMovie_switch_spec (Base m) movie (rtmpa r) (set_Base m movie))
    as [Hm _].
  destruct (EditMovie_switch (Base m) movie (rtmpa r) (set_Base m movie))
    as [cs m1] eqn:Hsw. simpl in Hm.
  injection Hedit as Hr'.
  assert (Hid : Id m1 = Id m) by (rewrite Hm; destruct (_ || _); reflexivity).
  assert (Hbase : Base m1 = movie)
    by (rewrite Hm; destruct (_ || _); reflexivity).
  assert (Hcr : Creator m1 = Creator m)
    by (rewrite Hm; destruct (_ || _); reflexivity).
  assert (Hget' : GetMovie (movies r') id = inl (p, m1)).
  { rewrite <- Hr'. simpl. apply (GetMovie_store _ _ _ m); assumption. }
  assert (Hperm' : EditMovie_refused r' u usr m1 = Some false).
  { rewrite <- Hperm. unfold EditMovie_refused, IsRoot, Creator_Name.
    rewrite Hroot, Hacc, Hcr. reflexivity. }
  unfold User_EditMovie. rewrite Hacc, Hu. simpl.
  rewrite Hget', Hperm'. simpl. rewrite Hbase.
  rewrite <- Hbase at 3. rewrite set_Base_same, EditMovie_switch_no_change.
  rewrite store_movie_same; [reflexivity|].
  by destruct (GetMovie_lookup _ _ _ _ Hget').
Qed.

Lemma User_EditMovie_idempotent_witness :
  ∃ r', User_EditMovie bob_ptr 2 edit_b_off sample_room = Some (r', None) ∧
        User_EditMovie bob_ptr 2 edit_b_off r' = Some (r', None).
Proof.
  eexists. split; [reflexivity|].
  apply (User_EditMovie_idempotent bob_ptr 2 edit_b_off sample_room).
  reflexivity.
Defined.

(** X13: the only channel User.EditMovie ever releases is the one named
    by the pull key the entry had before the edit, and it does so only
    on a permitted edit that turns the live-source flag off; a refused
    edit, and an edit that only turns the proxy flag off, leave the
    channels as they were. *)
Theorem User_EditMovie_channels (u : loc) (id : Z) (movie : BaseMovieInfo)
  (r r' : Room) (res : option error) (p : nat) (m : Movie) :
  GetMovie (movies r) id = inl (p, m) →
  User_EditMovie u id movie r = Some (r', res) →
  rtmpa r' =
    (if bool_decide (res = None) && RtmpSource (Base m)
        && negb (RtmpSource movie)
     then DelChannel (rtmpa r) (PullKey m) else rtmpa r) ∧
  rtmpa r' ⊆ rtmpa r.
Proof.
  intros Hget. unfold User_EditMovie.
  destruct (accounts r !! u) as [usr|]; [|discriminate]. simpl.
  rewrite Hget.
  destruct (EditMovie_refused r u usr m) as [[|]|]; simpl; try discriminate.
  - intros [= <- <-]. simpl. split; reflexivity.
  - pose proof (EditMovie_switch_spec (Base m) movie (rtmpa r)
                  (set_Base m movie)) as [_ Hcs].
    destruct (EditMovie_switch (Base m) movie (rtmpa r) (set_Base m movie))
      as [cs m1]. simpl in Hcs.
    intros [= <- <-]. simpl. rewrite Hcs.
    destruct (RtmpSource (Base m) && negb (RtmpSource movie)) eqn:Hoff.
    + split; [reflexivity|].
      intros k Hk. unfold DelChannel in Hk.
      apply elem_of_difference in Hk as [Hk _]. exact Hk.
    + split; reflexivity.
Qed.

Lemma User_EditMovie_channels_witness :
  (∃ r', User_EditMovie bob_ptr 2 edit_b_off sample_room = Some (r', None) ∧
         rtmpa r' = DelChannel (rtmpa sample_room) "key-b" ∧
         rtmpa r' ⊆ rtmpa sample_room) ∧
  (∃ r', User_EditMovie bob_ptr 2 edit_b sample_room = Some (r', None) ∧
         rtmpa r' = rtmpa sample_room ∧ rtmpa r' ⊆ rtmpa sample_room).
Proof.
  split; eexists; (split; [reflexivity|]).
  - apply (User_EditMovie_channels bob_ptr 2 edit_b_off sample_room _ None
             1%nat movie_b); reflexivity.
  - apply (User_EditMovie_channels bob_ptr 2 edit_b sample_room _ None
             1%nat movie_b); reflexivity.
Defined.

Lemma range_ext {S : Type} (f g : Movie -> S -> option (S * bool))
  (ms : list Movie) :
  (∀ e s, f e s = g e s) → ∀ s, range_ f ms s = range_ g ms s.
Proof.
  intros Hfg. induction ms as [|e ms IH]; intros s; simpl; [reflexivity|].
  rewrite Hfg. destruct (g e s) as [[s' [|]]|]; [apply IH|reflexivity..].
Qed.

(** X14: what User.Movies returns depends on the requester only through
    its name: two handles whose accounts bear the same name get the same
    list, whether or not one of them is an admin or the root account. *)
Theorem User_Movies_depends_on_name_only (r : Room) (u1 u2 : loc)
  (usr1 usr2 : User) :
  accounts r !! u1 = Some usr1 →
  accounts r !! u2 = Some usr2 →
  name usr1 = name usr2 →
  User_Movies u1 r = User_Movies u2 r.
Proof.
  intros H1 H2 Hname. unfold User_Movies. rewrite H1, H2. simpl.
  rewrite (range_ext (Movies_visitor r usr1) (Movies_visitor r usr2));
    [reflexivity|].
  intros e s. unfold Movies_visitor. rewrite Hname. reflexivity.
Qed.

Lemma User_Movies_depends_on_name_only_witness :
  User_Movies bob_ptr room_with_admin_bob
  = User_Movies carol_ptr room_with_admin_bob.
Proof.
  apply (User_Movies_depends_on_name_only room_with_admin_bob bob_ptr carol_ptr
           bob (mkUser "bob" "$2a$pw9" 1 true 3)); reflexivity.
Defined.

(** X15: a new-movie call changes the room in the counter only, which
    moves to its successor modulo 2^64 also when the constructor fails;
    the movie set is not touched.  The movie it returns has the caller
    as creator whatever options the caller passes, since WithCreator is
    applied after them, and an error it returns is the constructor's. *)
Theorem User_NewMovieWithBaseMovie_effect
  (validate : BaseMovieInfo -> option error) (u : loc)
  (baseMovie : BaseMovieInfo) (conf : list MovieConf) (now : Z)
  (r r' : Room) (res : Movie + error) :
  User_NewMovieWithBaseMovie validate u baseMovie conf now r = Some (r', res) →
  r' = set_mid r (wrap64 (mid r + 1)) ∧
  movies r' = movies r ∧
  (∀ m, res = inl m → Creator m = Some u ∧ validate baseMovie = None) ∧
  (∀ e, res = inr e → validate baseMovie = Some e).
Proof.
  unfold User_NewMovieWithBaseMovie.
  destruct (accounts r !! u); [|discriminate]. simpl.
  intros [= <- <-]. split; [reflexivity|]. split; [reflexivity|].
  unfold NewMovieWithBaseMovie. destruct (validate baseMovie) as [e0|].
  - split; [discriminate|]. by intros e [= <-].
  - split; [|discriminate]. intros m [= <-].
    rewrite fold_left_app. simpl. split; reflexivity.
Qed.

Lemma User_NewMovieWithBaseMovie_effect_witness :
  ∃ r' m,
    User_NewMovieWithBaseMovie no_validation alice_ptr edit_b [steal_credit]
      300 sample_room = Some (r', inl m) ∧
    r' = set_mid sample_room 3 ∧ movies r' = movies sample_room ∧
    Creator m = Some alice_ptr.
Proof.
  eexists _, _. split; [reflexivity|].
  destruct (User_NewMovieWithBaseMovie_effect no_validation alice_ptr edit_b
              [steal_credit] 300 sample_room _ _ eq_refl)
    as (Hr & Hms & Hok & _).
  split; [exact Hr|]. split; [exact Hms|]. apply Hok. reflexivity.
Defined.

(** * Properties of the Emby caches *)

(** X16: the user-cache loader returns data only for a non-empty server
    id for which the database has a vendor binding with a non-empty host
    and api key; the data is that binding, field by field. *)
Theorem EmbyAuthorization_returns_bound_vendor
  (GetEmbyVendor : string -> string -> EmbyVendor + cache_error)
  (userID serverID : string) (d : EmbyUserCacheData) :
  EmbyAuthorizationCacheWithUserIDInitFunc GetEmbyVendor userID serverID
    = inl d →
  serverID ≠ "" ∧ Host d ≠ "" ∧ ApiKey d ≠ "" ∧
  GetEmbyVendor userID serverID
    = inl (mkEmbyVendor (Host d) (ServerID d) (ApiKey d) (Backend d)).
Proof.
  unfold EmbyAuthorizationCacheWithUserIDInitFunc.
  destruct (String.eqb_spec serverID "") as [|Hsrv]; [discriminate|].
  destruct (GetEmbyVendor userID serverID) as [v|err]; [|discriminate].
  destruct (String.eqb_spec (vendor_ApiKey v) "") as [|Hkey];
    [discriminate|].
  destruct (String.eqb_spec (vendor_Host v) "") as [|Hhost];
    [discriminate|].
  simpl. intros [= <-]. simpl. destruct v. repeat split; assumption.
Qed.

Lemma EmbyAuthorization_returns_bound_vendor_witness :
  "srv1" ≠ "" ∧ "http://emby.local" ≠ "" ∧ "secret" ≠ "" ∧
  sample_vendors "u1" "srv1"
    = inl (mkEmbyVendor "http://emby.local" "srv1" "secret" "default").
Proof.
  apply (EmbyAuthorization_returns_bound_vendor sample_vendors "u1" "srv1"
           (mkEmbyUserCacheData "http://emby.local" "srv1" "secret" "default")).
  reflexivity.
Defined.

Section EmbyProofs.

Variable url_rest : Type.
Variable url_Parse : string -> URL url_rest + cache_error.
Variable url_String : URL url_rest -> string.
Variable url_JoinPath : string -> list string -> string + cache_error.
Variable Values_Encode : gmap string (list string) -> string.
Variable GetEmbyServerIdFromPath : string -> string * string * option cache_error.
Variable EmbyUserCache : Type.
Variable LoadOrStore : EmbyUserCache -> string -> EmbyUserCacheData + cache_error.
Variable GetItem : string -> GetItemReq -> GetItemResp + cache_error.

Lemma subtitle_name_spec (msi : MediaStreamInfo) :
  (stream_DisplayTitle msi ≠ "" →
     subtitle_name msi = stream_DisplayTitle msi) ∧
  (stream_DisplayTitle msi = "" → stream_Title msi ≠ "" →
     subtitle_name msi = stream_Title msi) ∧
  (stream_DisplayTitle msi = "" → stream_Title msi = "" →
     subtitle_name msi = stream_DisplayLanguage msi).
Proof.
  unfold subtitle_name.
  destruct (String.eqb_spec (stream_DisplayTitle msi) "") as [Hd|Hd];
    destruct (String.eqb_spec (stream_Title msi) "") as [Ht|Ht];
    simpl; repeat split; intros; congruence.
Qed.

Lemma subtitles_loop_spec (dataId vId : string)
  (msis : list MediaStreamInfo) :
  ∀ (u u' : URL url_rest) (subs subs' : list Subtitle),
    subtitles_loop url_rest url_String url_JoinPath dataId vId msis u subs
      = inl (u', subs') →
    url_Rest url_rest u' = url_Rest url_rest u ∧
    ∃ new,
      subs' = subs ++ new ∧
      Forall2 (subtitle_of url_rest url_String url_JoinPath
                 (url_Rest url_rest u) dataId vId)
        (filter (fun msi => stream_Type msi = "Subtitle") msis) new.
Proof.
  induction msis as [|msi msis IH]; intros u u' subs subs'; simpl.
  - intros [= <- <-]. split; [reflexivity|].
    exists []. rewrite app_nil_r. split; [reflexivity|constructor].
  - destruct (String.eqb_spec (stream_Type msi) "Subtitle") as [Hty|Hty].
    + destruct (url_JoinPath "emby" _) as [result|err] eqn:Hjoin;
        [|discriminate].
      intros Hloop. apply IH in Hloop as (Hrest & new & -> & Hnew).
      simpl in Hrest, Hnew. split; [exact Hrest|].
      exists (mkSubtitle (url_String (mkURL url_rest (url_Rest url_rest u) result ""))
                "srt" (subtitle_name msi)
                (url_String (mkURL url_rest (url_Rest url_rest u) result ""))
              :: new).
      rewrite <- app_assoc. split; [reflexivity|].
      rewrite filter_cons_True by exact Hty.
      constructor; [|exact Hnew].
      exists result. simpl.
      destruct (subtitle_name_spec msi) as (H1 & H2 & H3).
      repeat split; assumption.
    + intros Hloop. apply IH in Hloop as (Hrest & new & -> & Hnew).
      split; [exact Hrest|]. exists new. split; [reflexivity|].
      rewrite filter_cons_False by exact Hty. exact Hnew.
Qed.

Lemma sources_loop_spec (apiKey dataId : string) (vs : list MediaSourceInfo) :
  ∀ (u : URL url_rest) (sources : list EmbySource),
    sources_loop url_rest url_String url_JoinPath Values_Encode apiKey dataId
      vs u = inl sources →
    Forall2 (source_of url_rest url_String url_JoinPath Values_Encode
               (url_Rest url_rest u) apiKey dataId) vs sources.
Proof.
  induction vs as [|v vs IH]; intros u sources; simpl.
  - intros [= <-]. constructor.
  - destruct (String.eqb_spec (source_Container v) "") as [Hc|Hc].
    + destruct (sources_loop _ _ _ _ _ _ vs u) as [rest|err] eqn:Hrest;
        [|discriminate].
      intros [= <-]. constructor; [|apply IH; exact Hrest].
      split; [reflexivity|]. intros Hne. contradiction.
    + destruct (url_JoinPath "emby" _) as [result|err] eqn:Hjoin;
        [|discriminate].
      destruct (subtitles_loop _ _ _ _ _ _ _ _) as [[u1 subs]|err] eqn:Hsubs;
        [|discriminate].
      apply subtitles_loop_spec in Hsubs as (Hu1 & new & -> & Hnew).
      simpl in Hu1, Hnew.
      destruct (sources_loop _ _ _ _ _ _ vs u1) as [rest|err] eqn:Hrest;
        [|discriminate].
      intros [= <-]. apply IH in Hrest. rewrite Hu1 in Hrest.
      constructor; [|exact Hrest].
      split; [intros Heq; contradiction|]. intros _.
      exists result. simpl. repeat split; [exact Hjoin|exact Hnew].
Qed.

(** What a successful run of the movie-cache loader went through. *)
Lemma movie_init_inversion (path path' : string) (args : list EmbyUserCache)
  (data : EmbyMovieCacheData) :
  NewEmbyMovieCacheInitFunc url_rest url_Parse url_String url_JoinPath
    Values_Encode GetEmbyServerIdFromPath EmbyUserCache LoadOrStore GetItem
    path args = (path', inl data) →
  ∃ cache rest serverID aucd u item,
    args = cache :: rest ∧
    GetEmbyServerIdFromPath path = (serverID, path', None) ∧
    LoadOrStore cache serverID = inl aucd ∧
    Host aucd ≠ "" ∧ ApiKey aucd ≠ "" ∧
    url_Parse (Host aucd) = inl u ∧
    GetItem (Backend aucd) (mkGetItemReq (Host aucd) (ApiKey aucd) path')
      = inl item ∧
    item_IsFolder item = false ∧
    sources_loop url_rest url_String url_JoinPath Values_Encode
      (ApiKey aucd) (item_Id item) (item_MediaSourceInfo item) u
      = inl (Sources data).
Proof.
  unfold NewEmbyMovieCacheInitFunc.
  destruct args as [|cache rest]; [discriminate|].
  destruct (GetEmbyServerIdFromPath path) as [[serverID p1] [err|]];
    [discriminate|].
  destruct (LoadOrStore cache serverID) as [aucd|err] eqn:Hload;
    [|discriminate].
  destruct (String.eqb_spec (Host aucd) "") as [|Hhost]; [discriminate|].
  destruct (String.eqb_spec (ApiKey aucd) "") as [|Hkey]; [discriminate|].
  simpl.
  destruct (url_Parse (Host aucd)) as [u|err] eqn:Hparse; [|discriminate].
  destruct (GetItem (Backend aucd) _) as [item|err] eqn:Hitem; [|discriminate].
  destruct (item_IsFolder item) eqn:Hfolder; [discriminate|].
  destruct (sources_loop _ _ _ _ _ _ _ u) as [sources|err] eqn:Hloop;
    [|discriminate].
  intros [= <- <-].
  exists cache, rest, serverID, aucd, u, item.
  simpl. repeat split; first [assumption|reflexivity].
Qed.

(** X17: the movie-cache loader returns data only when it was given a
    user cache, the path named a server, the first user cache had a
    binding for that server with a non-empty host and api key, the host
    parsed as a url, and the item fetched with that host, that key and
    the rest of the path is not a folder. *)
Theorem movie_init_success_conditions (path path' : string)
  (args : list EmbyUserCache) (data : EmbyMovieCacheData) :
  NewEmbyMovieCacheInitFunc url_rest url_Parse url_String url_JoinPath
    Values_Encode GetEmbyServerIdFromPath EmbyUserCache LoadOrStore GetItem
    path args = (path', inl data) →
  ∃ cache rest serverID aucd u item,
    args = cache :: rest ∧
    GetEmbyServerIdFromPath path = (serverID, path', None) ∧
    LoadOrStore cache serverID = inl aucd ∧
    Host aucd ≠ "" ∧ ApiKey aucd ≠ "" ∧
    url_Parse (Host aucd) = inl u ∧
    GetItem (Backend aucd) (mkGetItemReq (Host aucd) (ApiKey aucd) path')
      = inl item ∧
    item_IsFolder item = false.
Proof.
  intros Hinit.
  destruct (movie_init_inversion path path' args data Hinit)
    as (cache & rest & serverID & aucd & u & item & H).
  exists cache, rest, serverID, aucd, u, item.
  destruct H as (H1 & H2 & H3 & H4 & H5 & H6 & H7 & H8 & _).
  repeat split; assumption.
Qed.

(** X18: the data the movie-cache loader returns has one source per
    media source of the item, in order.  A media source without
    container gives an empty source.  Any other gives a source with one
    url, named after the media source, whose query carries the api key,
    and one subtitle per stream of type Subtitle, in order, of type srt,
    with an empty query, cached under its own url, and named by the
    display title, else the title, else the display language. *)
Theorem movie_init_sources_shape (path path' : string)
  (args : list EmbyUserCache) (data : EmbyMovieCacheData) :
  NewEmbyMovieCacheInitFunc url_rest url_Parse url_String url_JoinPath
    Values_Encode GetEmbyServerIdFromPath EmbyUserCache LoadOrStore GetItem
    path args = (path', inl data) →
  ∃ aucd u item,
    url_Parse (Host aucd) = inl u ∧
    GetItem (Backend aucd) (mkGetItemReq (Host aucd) (ApiKey aucd) path')
      = inl item ∧
    Forall2 (source_of url_rest url_String url_JoinPath Values_Encode
               (url_Rest url_rest u) (ApiKey aucd) (item_Id item))
      (item_MediaSourceInfo item) (Sources data).
Proof.
  intros Hinit.
  destruct (movie_init_inversion path path' args data Hinit)
    as (cache & rest & serverID & aucd & u & item & H).
  destruct H as (_ & _ & _ & _ & _ & Hu & Hitem & _ & Hloop).
  exists aucd, u, item. split; [exact Hu|]. split; [exact Hitem|].
  apply sources_loop_spec. exact Hloop.
Qed.

(** X19: when the movie-cache loader is given a user cache, it leaves
    the movie's path at what GetEmbyServerIdFromPath returned, also when
    that call or a later step fails; without a user cache it leaves the
    path alone. *)
Theorem movie_init_rewrites_path (path : string)
  (args : list EmbyUserCache) :
  fst (NewEmbyMovieCacheInitFunc url_rest url_Parse url_String url_JoinPath
         Values_Encode GetEmbyServerIdFromPath EmbyUserCache LoadOrStore
         GetItem path args)
  = match args with
    | [] => path
    | _ :: _ => snd (fst (GetEmbyServerIdFromPath path))
    end.
Proof.
  unfold NewEmbyMovieCacheInitFunc.
  destruct args as [|cache rest]; [reflexivity|].
  destruct (GetEmbyServerIdFromPath path) as [[serverID p1] [err|]];
    [reflexivity|].
  destruct (LoadOrStore cache serverID) as [aucd|err]; [|reflexivity].
  destruct (String.eqb (Host aucd) "" || String.eqb (ApiKey aucd) "");
    [reflexivity|].
  destruct (url_Parse (Host aucd)) as [u|err]; [|reflexivity].
  destruct (GetItem (Backend aucd) _) as [item|err]; [|reflexivity].
  destruct (item_IsFolder item); [reflexivity|].
  destruct (sources_loop _ _ _ _ _ _ _ u); reflexivity.
Qed.

End EmbyProofs.

Lemma movie_init_success_conditions_witness :
  ∃ (cache : unit) rest serverID aucd u item,
    [tt] = cache :: rest ∧
    sample_GetEmbyServerIdFromPath "srv1/item42" = (serverID, "item42", None) ∧
    sample_LoadOrStore cache serverID = inl aucd ∧
    Host aucd ≠ "" ∧ ApiKey aucd ≠ "" ∧
    sample_url_Parse (Host aucd) = inl u ∧
    sample_GetItem (Backend aucd)
      (mkGetItemReq (Host aucd) (ApiKey aucd) "item42") = inl item ∧
    item_IsFolder item = false.
Proof.
  eapply (movie_init_success_conditions string sample_url_Parse
            sample_url_String sample_url_JoinPath sample_Values_Encode
            sample_GetEmbyServerIdFromPath unit sample_LoadOrStore
            sample_GetItem "srv1/item42" "item42" [tt]).
  vm_compute. reflexivity.
Defined.

Lemma movie_init_sources_shape_witness :
  ∃ aucd u item,
    sample_url_Parse (Host aucd) = inl u ∧
    sample_GetItem (Backend aucd)
      (mkGetItemReq (Host aucd) (ApiKey aucd) "item42") = inl item ∧
    Forall2 (source_of string sample_url_String sample_url_JoinPath
               sample_Values_Encode (url_Rest string u) (ApiKey aucd)
               (item_Id item))
      (item_MediaSourceInfo item)
      (Sources
         (mkEmbyMovieCacheData
            [mkEmbySource
               [mkSourceURL
                  "http://emby.local/emby/Videos/item42/stream.mkv?MediaSourceId=ms1&Static=true&api_key=secret"
                  "1080p"]
               [mkSubtitle
                  "http://emby.local/emby/Videos/item42/ms1/Subtitles/2/Stream.srt"
                  "srt" "English (SRT)"
                  "http://emby.local/emby/Videos/item42/ms1/Subtitles/2/Stream.srt";
                mkSubtitle
                  "http://emby.local/emby/Videos/item42/ms1/Subtitles/3/Stream.srt"
                  "srt" "ger"
                  "http://emby.local/emby/Videos/item42/ms1/Subtitles/3/Stream.srt"];
             mkEmbySource [] [];
             mkEmbySource
               [mkSourceURL
                  "http://emby.local/emby/Videos/item42/stream.mp4?MediaSourceId=ms3&Static=true&api_key=secret"
                  "480p"]
               []])).
Proof.
  apply (movie_init_sources_shape string sample_url_Parse
           sample_url_String sample_url_JoinPath sample_Values_Encode
           sample_GetEmbyServerIdFromPath unit sample_LoadOrStore
           sample_GetItem "srv1/item42" "item42" [tt]).
  vm_compute. reflexivity.
Defined.

(** * Compositions *)

(** The entry a successful edit leaves at the place of the old one. *)
Lemma User_EditMovie_entry (u : loc) (id : Z) (movie : BaseMovieInfo)
  (r r' : Room) (p : nat) (m : Movie) :
  GetMovie (movies r) id = inl (p, m) →
  User_EditMovie u id movie r = Some (r', None) →
  ∃ m', GetMovie (movies r') id = inl (p, m') ∧
        Id m' = Id m ∧ Base m' = movie ∧
        CreatedAt m' = CreatedAt m ∧ Creator m' = Creator m ∧
        PullKey m' =
          (if (RtmpSource (Base m) && negb (RtmpSource movie))
              || (Proxy (Base m) && negb (Proxy movie))
           then "" else PullKey m).
Proof.
  intros Hget Hedit. unfold User_EditMovie in Hedit.
  destruct (accounts r !! u) as [usr|]; [|discriminate]. simpl in Hedit.
  rewrite Hget in Hedit.
  destruct (EditMovie_refused r u usr m) as [[|]|]; try discriminate.
  simpl in Hedit.
  pose proof (EditMovie_switch_spec (Base m) movie (rtmpa r) (set_Base m movie))
    as [Hm _].
  destruct (EditMovie_switch (Base m) movie (rtmpa r) (set_Base m movie))
    as [cs m']. simpl in Hm. injection Hedit as <-.
  exists m'. simpl. rewrite Hm.
  split; [apply (GetMovie_store _ _ _ m); [exact Hget|]|];
    destruct (_ || _); repeat split.
Qed.

(** X20: after a successful edit, a look-up of the same id by the same
    account finds the entry and returns a view with the new base info,
    the id, creation time and creator's name of the entry, and the pull
    key the edit left. *)
Theorem User_Movie_after_EditMovie (u : loc) (id : Z) (movie : BaseMovieInfo)
  (r r1 : Room) (p : nat) (m : Movie) (cn : string) :
  GetMovie (movies r) id = inl (p, m) →
  Creator_Name r m = Some cn →
  User_EditMovie u id movie r = Some (r1, None) →
  ∃ r2 v,
    User_Movie u id r1 = Some (r2, inl v) ∧
    pb_Id v = id ∧ pb_Url v = Url movie ∧ pb_Name v = Name movie ∧
    pb_Live v = Live movie ∧ pb_Proxy v = Proxy movie ∧
    pb_RtmpSource v = RtmpSource movie ∧ pb_Type v = Type_ movie ∧
    pb_Headers v = Headers movie ∧
    pb_CreatedAt v = CreatedAt m ∧ pb_Creator v = cn ∧
    pb_PullKey v =
      (if (RtmpSource (Base m) && negb (RtmpSource movie))
          || (Proxy (Base m) && negb (Proxy movie))
       then "" else PullKey m).
Proof.
  intros Hget Hcn Hedit.
  destruct (User_EditMovie_entry u id movie r r1 p m Hget Hedit)
    as (m' & Hget' & Hid & Hbase & Hcreated & Hcreator & Hkey).
  destruct (User_EditMovie_preserves u id movie r r1 None Hedit)
    as (Hacc & _).
  destruct (GetMovie_lookup _ _ _ _ Hget) as [_ Hidm].
  assert (Hu : is_Some (accounts r1 !! u)).
  { unfold User_EditMovie in Hedit. rewrite Hacc.
    destruct (accounts r !! u); [by eexists|discriminate]. }
  destruct Hu as [usr Hu].
  assert (Hcn' : Creator_Name r1 m' = Some cn).
  { unfold Creator_Name in *. rewrite Hcreator, Hacc. exact Hcn. }
  rewrite (User_Movie_found r1 u id usr p m' cn Hu Hget' Hcn').
  eexists _, _. split; [reflexivity|]. simpl.
  rewrite Hbase, Hid, Hidm, Hcreated, Hkey. repeat split.
Qed.

Lemma User_Movie_after_EditMovie_witness :
  ∃ r2 v,
    User_Movie bob_ptr 2
      (store_movie
         (set_rtmpa sample_room (DelChannel (rtmpa sample_room) "key-b"))
         1 (set_PullKey (set_Base movie_b edit_b_off) ""))
      = Some (r2, inl v) ∧
    pb_Id v = 2 ∧ pb_Url v = Url edit_b_off ∧ pb_Name v = Name edit_b_off ∧
    pb_Live v = Live edit_b_off ∧ pb_Proxy v = Proxy edit_b_off ∧
    pb_RtmpSource v = RtmpSource edit_b_off ∧ pb_Type v = Type_ edit_b_off ∧
    pb_Headers v = Headers edit_b_off ∧
    pb_CreatedAt v = CreatedAt movie_b ∧ pb_Creator v = "bob" ∧
    pb_PullKey v =
      (if (RtmpSource (Base movie_b) && negb (RtmpSource edit_b_off))
          || (Proxy (Base movie_b) && negb (Proxy edit_b_off))
       then "" else PullKey movie_b).
Proof.
  apply (User_Movie_after_EditMovie bob_ptr 2 edit_b_off sample_room _
           1%nat movie_b "bob"); reflexivity.
Defined.

Lemma apply_known_options (conf : list UserConf) :
  Forall known_option conf →
  ∀ w, name (apply_conf conf w) = name w ∧
       password (apply_conf conf w) = password w ∧
       lastAct (apply_conf conf w) = lastAct w.
Proof.
  induction 1 as [|c conf Hc _ IH]; intros w; [repeat split|].
  change (apply_conf (c :: conf) w) with (apply_conf conf (c w)).
  destruct (IH (c w)) as (-> & -> & ->).
  destruct Hc as [[v ->]|[b ->]]; repeat split.
Qed.

(** X21: an account NewUser returns for options made of WithUserVersion
    and WithUserAdmin bears the name it was asked for, of 1 to 32 bytes,
    holds the hash the primitive made of the password, and has the
    creation time as last activity. *)
Theorem NewUser_account_fields
  (gen : string -> Z -> string + string) (id pw : string)
  (conf : list UserConf) (now rnd : Z) (u : User) :
  Forall known_option conf →
  NewUser gen id pw conf now rnd = inl u →
  name u = id ∧ (1 <= String.length (name u) <= 32)%nat ∧
  gen pw DefaultCost = inl (password u) ∧
  LastAct u = now.
Proof.
  intros Hconf Hnew.
  destruct (NewUser_inl_bounds gen id pw conf now rnd u Hnew)
    as (Hid & _ & _).
  unfold NewUser in Hnew.
  destruct (String.eqb id ""); [discriminate|].
  destruct (32 <? String.length id)%nat; [discriminate|].
  destruct (String.eqb pw ""); [discriminate|].
  destruct (32 <? String.length pw)%nat; [discriminate|].
  destruct (gen pw DefaultCost) as [h|msg]; [|discriminate].
  destruct (apply_known_options conf Hconf (mkUser id h 0 false now))
    as (Hn & Hp & Hl). simpl in Hn, Hp, Hl.
  injection Hnew as <-. unfold LastAct.
  destruct (_ =? 0); simpl; rewrite Hn, Hp, Hl;
    (split; [reflexivity|split; [exact Hid|split; reflexivity]]).
Qed.

Lemma NewUser_account_fields_witness :
  name (mkUser "dave" "$2a$pw4" 42 true 5) = "dave" ∧
  (1 <= String.length (name (mkUser "dave" "$2a$pw4" 42 true 5)) <= 32)%nat ∧
  sample_hash "pw4" DefaultCost
    = inl (password (mkUser "dave" "$2a$pw4" 42 true 5)) ∧
  LastAct (mkUser "dave" "$2a$pw4" 42 true 5) = 5.
Proof.
  apply (NewUser_account_fields sample_hash "dave" "pw4"
           [WithUserVersion 42; WithUserAdmin true] 5 77).
  - constructor; [left; by eexists|].
    constructor; [right; by eexists|constructor].
  - reflexivity.
Defined.
